(** * Princess Lea's watering sketch ([sketch_pl.ino])

    A shallow embedding of the Arduino sketch that waters an olive tree:
    the moisture conversion, the two threshold buttons, and the
    dry-time / add-water counters that drive the pump relay.

    Conventions of the embedding:
    - [float] is the 32-bit IEEE-754 type of the Arduino tool chain, round
      to nearest even; its operations are those of [SpecFloat] at
      precision 24 and maximal exponent 128. Integer operands of a mixed
      expression are converted with [F32.of_int].
    - [unsigned long] is a 32-bit word; sums and differences wrap.
    - The two calibration constants are the fields of a record, so that
      the sketch can also be read under another calibration;
      [calibration] holds the values of the source.
    - One call of [loop] takes what the peripherals return during that
      call (the two button edges, [millis()], [analogRead(A0)]) and maps
      the globals before the call to the globals after it.
    - [Serial] is kept as the list of lines printed so far, one
      constructor per line of the sketch, carrying the numbers printed.
    - The top LCD line is rebuilt from the globals on every call and is
      not kept; the bottom line [lcd_line2] and [diff] are globals and
      are kept. *)

From Stdlib Require Import String DecimalString.
From Stdlib Require Import ZArith List Bool Lia.
From Stdlib Require Import Floats.SpecFloat.
Import ListNotations.
Local Open Scope Z_scope.

(** ** The [float] type *)

Module F32.

Definition prec : Z := 24.
Definition emax : Z := 128.

Definition float : Type := spec_float.

(** Conversion of an integer operand to [float]. *)
Definition of_int (z : Z) : float := binary_normalize prec emax z 0 false.

Definition add : float -> float -> float := SFadd prec emax.
Definition sub : float -> float -> float := SFsub prec emax.
Definition mul : float -> float -> float := SFmul prec emax.
Definition div : float -> float -> float := SFdiv prec emax.

(** [x < y] and [x <= y]; both are false when an operand is a NaN. *)
Definition ltb : float -> float -> bool := SFltb.
Definition leb : float -> float -> bool := SFleb.

Definition is_nan (x : float) : bool :=
  match x with S754_nan => true | _ => false end.

Definition is_finite (x : float) : bool :=
  match x with S754_zero _ | S754_finite _ _ _ => true | _ => false end.

(** [p * 2 ^ z] on mantissas, for [z >= 0]. *)
Definition shl (p : positive) (z : Z) : positive :=
  match z with Zpos k => Pos.iter xO p k | _ => p end.

End F32.

Abbreviation float := F32.float.

(** ** [unsigned long] *)

Module ULong.

Definition modulus : Z := 2 ^ 32.

Definition wrap (z : Z) : Z := z mod modulus.
Definition add (a b : Z) : Z := wrap (a + b).
Definition sub (a b : Z) : Z := wrap (a - b).

(** [String(n)] of an integer: its decimal digits. *)
Definition to_String (z : Z) : string := NilZero.string_of_int (Z.to_int z).

End ULong.

(** ** Globals of the sketch *)

(** Calibration of the sensor: the raw readings in air and in water. *)
Record Calibration : Type := {
  AirValue : float;
  WaterValue : float
}.

(** [const float AirValue = 620; const float WaterValue = 35;] *)
Definition calibration : Calibration :=
  {| AirValue := F32.of_int 620; WaterValue := F32.of_int 35 |}.

Definition dryTime : Z := 180000.
Definition addWater : Z := 20000.

(** [intervalSense] is declared as a variable but never assigned. *)
Definition intervalSense : Z := 1000.

Inductive SerialLine : Type :=
| ButtonIsPressed (n : Z)            (* "The button n is pressed" *)
| MeasuredMoistureLevel (p : float)  (* "Measured moisture level: p%" *)
| ItsDryNowFor (ms : Z)              (* "It's dry now for ms ms" *)
| GoingToAddH2O (ms busy : Z)        (* "Going to add H2O for  ms ms; busy with busy" *)
| PrincessLeaIsHappy                 (* "Princess Lea is happy" *)
| DryTimeSumLine (ms : Z)            (* "dryTimeSum: ms" *)
| AddWaterSumLine (ms : Z).          (* "addWaterSum: ms" *)

Record State : Type := {
  soilMoistureValue : Z;
  soilMoisturePercent : float;
  thresholdAddWater : float;
  previousMillisSense : Z;
  dryTimeSum : Z;
  addWaterSum : Z;
  timeAddH20 : Z;
  lcd_line2 : string;
  diff : string;
  RELAY_PIN : bool;        (* level last written to the relay pin; HIGH = pump on *)
  Serial : list SerialLine
}.

(** The globals when [setup()] returns: their initialisers, and the relay
    pin, made an output and not yet written, LOW. *)
Definition setup : State := {|
  soilMoistureValue := 0;
  soilMoisturePercent := F32.of_int 0;
  thresholdAddWater := F32.of_int 37;
  previousMillisSense := 0;
  dryTimeSum := 0;
  addWaterSum := 0;
  timeAddH20 := 0;
  lcd_line2 := "1st measurement      ";
  diff := "";
  RELAY_PIN := false;
  Serial := []
|}.

(** Assignments to one global. *)
Definition set_soilMoistureValue (v : Z) (s : State) : State :=
  {| soilMoistureValue := v; soilMoisturePercent := soilMoisturePercent s;
     thresholdAddWater := thresholdAddWater s;
     previousMillisSense := previousMillisSense s;
     dryTimeSum := dryTimeSum s; addWaterSum := addWaterSum s;
     timeAddH20 := timeAddH20 s; lcd_line2 := lcd_line2 s; diff := diff s;
     RELAY_PIN := RELAY_PIN s; Serial := Serial s |}.

Definition set_soilMoisturePercent (v : float) (s : State) : State :=
  {| soilMoistureValue := soilMoistureValue s; soilMoisturePercent := v;
     thresholdAddWater := thresholdAddWater s;
     previousMillisSense := previousMillisSense s;
     dryTimeSum := dryTimeSum s; addWaterSum := addWaterSum s;
     timeAddH20 := timeAddH20 s; lcd_line2 := lcd_line2 s; diff := diff s;
     RELAY_PIN := RELAY_PIN s; Serial := Serial s |}.

Definition set_thresholdAddWater (v : float) (s : State) : State :=
  {| soilMoistureValue := soilMoistureValue s;
     soilMoisturePercent := soilMoisturePercent s;
     thresholdAddWater := v;
     previousMillisSense := previousMillisSense s;
     dryTimeSum := dryTimeSum s; addWaterSum := addWaterSum s;
     timeAddH20 := timeAddH20 s; lcd_line2 := lcd_line2 s; diff := diff s;
     RELAY_PIN := RELAY_PIN s; Serial := Serial s |}.

Definition set_previousMillisSense (v : Z) (s : State) : State :=
  {| soilMoistureValue := soilMoistureValue s;
     soilMoisturePercent := soilMoisturePercent s;
     thresholdAddWater := thresholdAddWater s;
     previousMillisSense := v;
     dryTimeSum := dryTimeSum s; addWaterSum := addWaterSum s;
     timeAddH20 := timeAddH20 s; lcd_line2 := lcd_line2 s; diff := diff s;
     RELAY_PIN := RELAY_PIN s; Serial := Serial s |}.

Definition set_dryTimeSum (v : Z) (s : State) : State :=
  {| soilMoistureValue := soilMoistureValue s;
     soilMoisturePercent := soilMoisturePercent s;
     thresholdAddWater := thresholdAddWater s;
     previousMillisSense := previousMillisSense s;
     dryTimeSum := v; addWaterSum := addWaterSum s;
     timeAddH20 := timeAddH20 s; lcd_line2 := lcd_line2 s; diff := diff s;
     RELAY_PIN := RELAY_PIN s; Serial := Serial s |}.

Definition set_addWaterSum (v : Z) (s : State) : State :=
  {| soilMoistureValue := soilMoistureValue s;
     soilMoisturePercent := soilMoisturePercent s;
     thresholdAddWater := thresholdAddWater s;
     previousMillisSense := previousMillisSense s;
     dryTimeSum := dryTimeSum s; addWaterSum := v;
     timeAddH20 := timeAddH20 s; lcd_line2 := lcd_line2 s; diff := diff s;
     RELAY_PIN := RELAY_PIN s; Serial := Serial s |}.

Definition set_timeAddH20 (v : Z) (s : State) : State :=
  {| soilMoistureValue := soilMoistureValue s;
     soilMoisturePercent := soilMoisturePercent s;
     thresholdAddWater := thresholdAddWater s;
     previousMillisSense := previousMillisSense s;
     dryTimeSum := dryTimeSum s; addWaterSum := addWaterSum s;
     timeAddH20 := v; lcd_line2 := lcd_line2 s; diff := diff s;
     RELAY_PIN := RELAY_PIN s; Serial := Serial s |}.

Definition set_lcd_line2 (v : string) (s : State) : State :=
  {| soilMoistureValue := soilMoistureValue s;
     soilMoisturePercent := soilMoisturePercent s;
     thresholdAddWater := thresholdAddWater s;
     previousMillisSense := previousMillisSense s;
     dryTimeSum := dryTimeSum s; addWaterSum := addWaterSum s;
     timeAddH20 := timeAddH20 s; lcd_line2 := v; diff := diff s;
     RELAY_PIN := RELAY_PIN s; Serial := Serial s |}.

Definition set_diff (v : string) (s : State) : State :=
  {| soilMoistureValue := soilMoistureValue s;
     soilMoisturePercent := soilMoisturePercent s;
     thresholdAddWater := thresholdAddWater s;
     previousMillisSense := previousMillisSense s;
     dryTimeSum := dryTimeSum s; addWaterSum := addWaterSum s;
     timeAddH20 := timeAddH20 s; lcd_line2 := lcd_line2 s; diff := v;
     RELAY_PIN := RELAY_PIN s; Serial := Serial s |}.

(** [digitalWrite(RELAY_PIN, level)] *)
Definition digitalWrite_RELAY_PIN (level : bool) (s : State) : State :=
  {| soilMoistureValue := soilMoistureValue s;
     soilMoisturePercent := soilMoisturePercent s;
     thresholdAddWater := thresholdAddWater s;
     previousMillisSense := previousMillisSense s;
     dryTimeSum := dryTimeSum s; addWaterSum := addWaterSum s;
     timeAddH20 := timeAddH20 s; lcd_line2 := lcd_line2 s; diff := diff s;
     RELAY_PIN := level; Serial := Serial s |}.

(** [Serial.println(line)] *)
Definition Serial_println (line : SerialLine) (s : State) : State :=
  {| soilMoistureValue := soilMoistureValue s;
     soilMoisturePercent := soilMoisturePercent s;
     thresholdAddWater := thresholdAddWater s;
     previousMillisSense := previousMillisSense s;
     dryTimeSum := dryTimeSum s; addWaterSum := addWaterSum s;
     timeAddH20 := timeAddH20 s; lcd_line2 := lcd_line2 s; diff := diff s;
     RELAY_PIN := RELAY_PIN s; Serial := Serial s ++ [line] |}.

Definition HIGH : bool := true.
Definition LOW : bool := false.

(** ** The sketch *)

(** Line 136: raw value to percent,
    [100 - (soilMoistureValue - WaterValue) / (AirValue - WaterValue) * 100]. *)
Definition moisturePercent (cal : Calibration) (raw : Z) : float :=
  F32.sub (F32.of_int 100)
    (F32.mul
       (F32.div (F32.sub (F32.of_int raw) (WaterValue cal))
                (F32.sub (AirValue cal) (WaterValue cal)))
       (F32.of_int 100)).

(** Lines 137-171: what one sampling tick does once the percentage [p] has
    been computed. *)
Definition irrigate (p : float) (s0 : State) : State :=
  let s := set_soilMoisturePercent p s0 in
  let s := Serial_println (MeasuredMoistureLevel p) s in
  let s :=
    if F32.ltb (soilMoisturePercent s) (thresholdAddWater s) then
      let s := set_dryTimeSum (ULong.add (dryTimeSum s) intervalSense) s in
      let s := Serial_println (ItsDryNowFor (dryTimeSum s)) s in
      if dryTime <=? dryTimeSum s then
        if addWaterSum s <? addWater then
          let s := set_addWaterSum (ULong.add (addWaterSum s) intervalSense) s in
          let s := Serial_println (GoingToAddH2O intervalSense (addWaterSum s)) s in
          let s := digitalWrite_RELAY_PIN HIGH s in
          set_lcd_line2
            ("Add H20 for " ++ ULong.to_String (Z.quot addWater 1000) ++ "s   ")%string s
        else
          let s := set_addWaterSum 0 s in
          let s := set_dryTimeSum 0 s in
          digitalWrite_RELAY_PIN LOW s
      else
        let s := set_timeAddH20 (ULong.sub dryTime (dryTimeSum s)) s in
        set_lcd_line2
          ("H20 add in " ++ ULong.to_String (timeAddH20 s / 1000) ++ "s   ")%string s
    else
      let s := Serial_println PrincessLeaIsHappy s in
      let s := digitalWrite_RELAY_PIN LOW s in
      set_lcd_line2 "Lea is Happy    " s
  in
  let s := Serial_println (DryTimeSumLine (dryTimeSum s)) s in
  Serial_println (AddWaterSumLine (addWaterSum s)) s.

(** Lines 132-171: one sampling tick on the raw reading [raw]. *)
Definition sense (cal : Calibration) (raw : Z) (s : State) : State :=
  irrigate (moisturePercent cal raw) (set_soilMoistureValue raw s).

(** What the peripherals return during one call of [loop]. *)
Record Input : Type := {
  button1_isPressed : bool;
  button2_isPressed : bool;
  millis : Z;
  analogRead_A0 : Z
}.

(** Lines 117-124: the two buttons. *)
Definition readButtons (inp : Input) (s : State) : State :=
  let s :=
    if button1_isPressed inp then
      let s := Serial_println (ButtonIsPressed 1) s in
      set_thresholdAddWater (F32.add (thresholdAddWater s) (F32.of_int 1)) s
    else s in
  if button2_isPressed inp then
    let s := Serial_println (ButtonIsPressed 2) s in
    set_thresholdAddWater (F32.sub (thresholdAddWater s) (F32.of_int 1)) s
  else s.

(** Line 129: has [intervalSense] elapsed since the last sampling tick? *)
Definition senseDue (currentMillis : Z) (s : State) : bool :=
  intervalSense <=? ULong.sub currentMillis (previousMillisSense s).

(** Lines 175-180: the comparison sign shown on the top LCD line. *)
Definition showDiff (s : State) : State :=
  if F32.ltb (soilMoisturePercent s) (thresholdAddWater s)
  then set_diff "<" s
  else set_diff ">=" s.

(** Lines 111-186. *)
Definition loop (cal : Calibration) (inp : Input) (s : State) : State :=
  let s := readButtons inp s in
  let currentMillis := millis inp in
  let s :=
    if senseDue currentMillis s then
      let s := set_previousMillisSense currentMillis s in
      sense cal (analogRead_A0 inp) s
    else s in
  showDiff s.

(** The globals after the calls of [loop] on the inputs [inps], in order. *)
Definition run (cal : Calibration) (inps : list Input) (s : State) : State :=
  fold_left (fun st inp => loop cal inp st) inps s.

(** The globals after sampling ticks on the percentages [ps], in order. *)
Definition irrigateAll (ps : list float) (s : State) : State :=
  fold_left (fun st p => irrigate p st) ps s.

(** States the sketch can be in between two calls of [loop]. *)
Inductive reachable (cal : Calibration) : State -> Prop :=
| reachable_setup : reachable cal setup
| reachable_loop : forall inp s,
    reachable cal s -> reachable cal (loop cal inp s).

(** ** Vocabulary of the statements *)

(** Readings on either side of the comparison of line 141. *)
Definition isDry (thr p : float) : bool := F32.ltb p thr.

(** Number of readings of [ps] that are below the threshold [thr]. *)
Definition dryCount (thr : float) (ps : list float) : nat :=
  length (filter (isDry thr) ps).

Definition allDry (thr : float) (ps : list float) : bool :=
  forallb (isDry thr) ps.

(** Readings that are all at or above the threshold [thr]. *)
Definition allSatisfied (thr : float) (ps : list float) : bool :=
  forallb (fun p => F32.leb thr p) ps.

(** Cold start: both counters at zero and the pump off. *)
Definition coldStart (s : State) : Prop :=
  dryTimeSum s = 0 /\ addWaterSum s = 0 /\ RELAY_PIN s = LOW.

(** Between two calls of [loop] the sketch is either waiting (no dose in
    progress, the dry time short of [dryTime], the pump off) or dosing
    (the dry time has run on past [dryTime] by the length of the dose
    given so far, less one interval). *)
Definition waiting (s : State) : Prop :=
  addWaterSum s = 0 /\
  0 <= dryTimeSum s < dryTime /\ dryTimeSum s mod intervalSense = 0 /\
  RELAY_PIN s = LOW.

Definition dosing (s : State) : Prop :=
  0 < addWaterSum s <= addWater /\ addWaterSum s mod intervalSense = 0 /\
  dryTimeSum s = dryTime - intervalSense + addWaterSum s.

Definition countersOk (s : State) : Prop := waiting s \/ dosing s.

(** What one step does to the counters, read off two states: the dose
    counter advances only with [dryTime] reached, and a counter that goes
    down goes to zero together with the other one. *)
Definition stepOk (s s' : State) : Prop :=
  (addWaterSum s < addWaterSum s' -> dryTime <= dryTimeSum s') /\
  (dryTimeSum s' < dryTimeSum s \/ addWaterSum s' < addWaterSum s ->
   dryTimeSum s' = 0 /\ addWaterSum s' = 0).

(** The inputs of [n] calls of [loop], one every second starting at
    [millis() = 1000], no button pressed, the sensor reading [raw]. *)
Definition everySecond (raw : Z) (n : nat) : list Input :=
  map (fun i => {| button1_isPressed := false; button2_isPressed := false;
                   millis := 1000 * Z.of_nat i; analogRead_A0 := raw |})
      (seq 1 n).

(** Range of [int] on the 8-bit boards; [analogRead] returns 0..1023. *)
Definition INT_MIN : Z := -32768.
Definition INT_MAX : Z := 32767.

(** Does [f] go down, or stay, at each of the [n] steps from [r] to
    [r + n]?  [prev] is [f r]. *)
Fixpoint nonIncreasing (f : Z -> float) (n : nat) (r : Z) (prev : float) : bool :=
  match n with
  | O => true
  | S n' =>
      let next := f (r + 1) in
      F32.leb next prev && nonIncreasing f n' (r + 1) next
  end.



(** A call of [loop] during which neither button reports an edge. *)
Definition quiet (inp : Input) : bool :=
  negb (button1_isPressed inp) && negb (button2_isPressed inp).

(** Two states that agree on what the pump control reads and writes. *)
Definition sameControl (s s' : State) : Prop :=
  thresholdAddWater s = thresholdAddWater s' /\
  dryTimeSum s = dryTimeSum s' /\
  addWaterSum s = addWaterSum s' /\
  RELAY_PIN s = RELAY_PIN s'.

(** The percentage a call of [loop] computes if it samples. *)
Definition readingOf (cal : Calibration) (inp : Input) : float :=
  moisturePercent cal (analogRead_A0 inp).

(** The calls of a run at which line 129 lets a sampling tick through,
    [prev] being [previousMillisSense] before the run. *)
Fixpoint sampled (prev : Z) (inps : list Input) : list Input :=
  match inps with
  | [] => []
  | inp :: rest =>
      if intervalSense <=? ULong.sub (millis inp) prev
      then inp :: sampled (millis inp) rest
      else sampled prev rest
  end.

(** The lines the two buttons print during one call of [loop]. *)
Definition buttonLines (inp : Input) : list SerialLine :=
  (if button1_isPressed inp then [ButtonIsPressed 1] else []) ++
  (if button2_isPressed inp then [ButtonIsPressed 2] else []).

(** Is the relay HIGH after each of the sampling ticks on [ps]? *)
Fixpoint highAfterEach (ps : list float) (s : State) : bool :=
  match ps with
  | [] => true
  | p :: rest => RELAY_PIN (irrigate p s) && highAfterEach rest (irrigate p s)
  end.

(** The largest magnitude up to which every whole number is a [float]. *)
Definition wholeLimit : Z := 16777216.

(** The whole-number threshold after the buttons of one call of [loop],
    from the whole-number threshold [n] before it. *)
Definition pressed (n : Z) (inp : Input) : Z :=
  let n1 := if button1_isPressed inp then Z.min (n + 1) wholeLimit else n in
  if button2_isPressed inp then Z.max (n1 - 1) (- wholeLimit) else n1.

(** The texts the bottom LCD line can hold. *)
Definition lcdShape (s : State) : Prop :=
  lcd_line2 s = "1st measurement      "%string \/
  lcd_line2 s = "Lea is Happy    "%string \/
  lcd_line2 s = "Add H20 for 20s   "%string \/
  exists N, 1 <= N <= 179 /\
    lcd_line2 s = ("H20 add in " ++ ULong.to_String N ++ "s   ")%string.

(** ** Proof automation *)

(** Case analysis along the branches of [irrigate]. *)
Ltac tick_cases :=
  unfold irrigate, isDry in *; cbn -[ULong.add ULong.sub Z.leb Z.ltb String.append];
  repeat match goal with
  | H : ?b = _ |- context [if ?b then _ else _] => rewrite H
  | |- context [if ?b then _ else _] => destruct b eqn:?
  end; cbn -[ULong.add ULong.sub Z.leb Z.ltb String.append].

(** Linear arithmetic over the constants of the sketch. *)
Ltac counters_lia :=
  unfold dryTime, addWater, intervalSense, ULong.modulus in *;
  Z.to_euclidean_division_equations; lia.

(** Reduction of the field accesses and assignments only. *)
Ltac fields :=
  cbn [soilMoistureValue soilMoisturePercent thresholdAddWater
       previousMillisSense dryTimeSum addWaterSum timeAddH20 lcd_line2 diff
       RELAY_PIN Serial
       set_soilMoistureValue set_soilMoisturePercent set_thresholdAddWater
       set_previousMillisSense set_dryTimeSum set_addWaterSum set_timeAddH20
       set_lcd_line2 set_diff digitalWrite_RELAY_PIN Serial_println].

(** Case analysis on the comparisons of exponents and mantissas. *)
Ltac compare_cases :=
  change (Pos.compare_cont Eq) with Pos.compare;
  repeat match goal with
  | |- context [Z.compare ?a ?b] => destruct (Z.compare_spec a b)
  | |- context [Pos.compare ?a ?b] => destruct (Pos.compare_spec a b)
  end; cbn; try discriminate; try reflexivity; try lia.

(** ** One sampling tick, field by field *)

Lemma ULong_add_small a b :
  0 <= a + b < ULong.modulus -> ULong.add a b = a + b.
Proof. intros H. unfold ULong.add, ULong.wrap. now apply Z.mod_small. Qed.

Lemma ULong_wrap_range z : 0 <= ULong.wrap z < ULong.modulus.
Proof. unfold ULong.wrap. apply Z.mod_pos_bound. reflexivity. Qed.

Lemma irrigate_threshold p s :
  thresholdAddWater (irrigate p s) = thresholdAddWater s.
Proof. tick_cases; reflexivity. Qed.

Lemma irrigate_percent p s : soilMoisturePercent (irrigate p s) = p.
Proof. tick_cases; reflexivity. Qed.

Lemma irrigate_previousMillis p s :
  previousMillisSense (irrigate p s) = previousMillisSense s.
Proof. tick_cases; reflexivity. Qed.

(** The else branch of line 165: only the relay, the LCD line and the log
    are written. *)
Lemma irrigate_happy p s :
  isDry (thresholdAddWater s) p = false ->
  dryTimeSum (irrigate p s) = dryTimeSum s /\
  addWaterSum (irrigate p s) = addWaterSum s /\
  RELAY_PIN (irrigate p s) = LOW.
Proof. intros H. tick_cases; auto. Qed.

(** A dry tick before [dryTime] is reached: the relay is not written. *)
Lemma irrigate_confirming p s :
  isDry (thresholdAddWater s) p = true ->
  0 <= dryTimeSum s -> dryTimeSum s + intervalSense < dryTime ->
  dryTimeSum (irrigate p s) = dryTimeSum s + intervalSense /\
  addWaterSum (irrigate p s) = addWaterSum s /\
  RELAY_PIN (irrigate p s) = RELAY_PIN s.
Proof.
  intros H H0 H1.
  assert (E : ULong.add (dryTimeSum s) intervalSense = dryTimeSum s + intervalSense).
  { apply ULong_add_small. unfold ULong.modulus, dryTime, intervalSense in *. lia. }
  tick_cases; rewrite ?E in *; auto; unfold dryTime, intervalSense in *; lia.
Qed.

(** A dry tick once [dryTime] is reached and the dose is not complete. *)
Lemma irrigate_dosing p s :
  isDry (thresholdAddWater s) p = true ->
  dryTime <= dryTimeSum s + intervalSense < ULong.modulus ->
  0 <= addWaterSum s < addWater ->
  dryTimeSum (irrigate p s) = dryTimeSum s + intervalSense /\
  addWaterSum (irrigate p s) = addWaterSum s + intervalSense /\
  RELAY_PIN (irrigate p s) = HIGH.
Proof.
  intros H H0 H1.
  assert (E : ULong.add (dryTimeSum s) intervalSense = dryTimeSum s + intervalSense).
  { apply ULong_add_small. unfold dryTime, intervalSense in *. lia. }
  assert (E' : ULong.add (addWaterSum s) intervalSense = addWaterSum s + intervalSense).
  { apply ULong_add_small. unfold ULong.modulus, addWater, intervalSense in *. lia. }
  tick_cases; rewrite ?E, ?E' in *; auto; lia.
Qed.

(** A dry tick once the dose is complete: both counters restart. *)
Lemma irrigate_soak p s :
  isDry (thresholdAddWater s) p = true ->
  dryTime <= dryTimeSum s + intervalSense < ULong.modulus ->
  addWater <= addWaterSum s ->
  dryTimeSum (irrigate p s) = 0 /\
  addWaterSum (irrigate p s) = 0 /\
  RELAY_PIN (irrigate p s) = LOW.
Proof.
  intros H H0 H1.
  assert (E : ULong.add (dryTimeSum s) intervalSense = dryTimeSum s + intervalSense).
  { apply ULong_add_small. unfold dryTime, intervalSense in *. lia. }
  tick_cases; rewrite ?E in *; auto; lia.
Qed.

(** ** Runs of sampling ticks *)

Lemma irrigateAll_cons p ps s :
  irrigateAll (p :: ps) s = irrigateAll ps (irrigate p s).
Proof. reflexivity. Qed.

Lemma irrigateAll_app ps qs s :
  irrigateAll (ps ++ qs) s = irrigateAll qs (irrigateAll ps s).
Proof. unfold irrigateAll. apply fold_left_app. Qed.

Lemma irrigateAll_snoc ps p s :
  irrigateAll (ps ++ [p]) s = irrigate p (irrigateAll ps s).
Proof. now rewrite irrigateAll_app. Qed.

Lemma irrigateAll_threshold ps : forall s,
  thresholdAddWater (irrigateAll ps s) = thresholdAddWater s.
Proof.
  induction ps as [|p ps IH]; intros s; [reflexivity|].
  rewrite irrigateAll_cons, IH. apply irrigate_threshold.
Qed.

Lemma dryCount_cons thr p ps :
  dryCount thr (p :: ps) =
  if isDry thr p then S (dryCount thr ps) else dryCount thr ps.
Proof. unfold dryCount. cbn [filter]. now destruct (isDry thr p). Qed.

Lemma dryCount_le_length thr ps : (dryCount thr ps <= length ps)%nat.
Proof. unfold dryCount. apply filter_length_le. Qed.

Lemma dryCount_allDry thr ps :
  allDry thr ps = true -> dryCount thr ps = length ps.
Proof.
  unfold allDry. induction ps as [|p ps IH]; [reflexivity|].
  cbn [forallb length]. rewrite dryCount_cons.
  intros H. apply andb_prop in H. destruct H as [Hp Hps].
  rewrite Hp. f_equal. now apply IH.
Qed.

Lemma allDry_app thr ps qs :
  allDry thr (ps ++ qs) = allDry thr ps && allDry thr qs.
Proof. unfold allDry. apply forallb_app. Qed.

Lemma allDry_firstn thr k ps :
  allDry thr ps = true -> allDry thr (firstn k ps) = true.
Proof.
  intros H. rewrite <- (firstn_skipn k ps), allDry_app in H.
  apply andb_prop in H. tauto.
Qed.

(** While fewer dry readings than [dryTime / intervalSense] have been
    counted, whatever readings lie in between, the dry count is the number
    of dry readings so far and the relay is never switched on. *)
Lemma confirming_run ps : forall s,
  0 <= dryTimeSum s ->
  dryTimeSum s + intervalSense * Z.of_nat (dryCount (thresholdAddWater s) ps) < dryTime ->
  dryTimeSum (irrigateAll ps s) =
    dryTimeSum s + intervalSense * Z.of_nat (dryCount (thresholdAddWater s) ps) /\
  addWaterSum (irrigateAll ps s) = addWaterSum s /\
  (RELAY_PIN s = LOW -> RELAY_PIN (irrigateAll ps s) = LOW).
Proof.
  induction ps as [|p ps IH]; intros s H0 H1.
  - cbn. split; [unfold intervalSense; lia | auto].
  - rewrite irrigateAll_cons. rewrite dryCount_cons in *.
    destruct (isDry (thresholdAddWater s) p) eqn:Hp.
    + destruct (irrigate_confirming p s Hp H0) as (Hd & Ha & Hr).
      { unfold intervalSense in *. lia. }
      specialize (IH (irrigate p s)).
      rewrite irrigate_threshold, Hd, Ha, Hr in IH.
      destruct IH as (Hd' & Ha' & Hr'); unfold intervalSense in *; try lia.
      repeat split; auto; lia.
    + destruct (irrigate_happy p s Hp) as (Hd & Ha & Hr).
      specialize (IH (irrigate p s)).
      rewrite irrigate_threshold, Hd, Ha, Hr in IH.
      destruct IH as (Hd' & Ha' & Hr'); try lia.
      repeat split; auto.
Qed.

(** Consecutive dry ticks between the moment [dryTime] is reached and the
    moment the dose is complete: both counters advance and the relay is
    switched on at every one of them. *)
Lemma dosing_run ps : forall s,
  ps <> [] ->
  allDry (thresholdAddWater s) ps = true ->
  dryTime <= dryTimeSum s + intervalSense ->
  dryTimeSum s + intervalSense * Z.of_nat (length ps) < ULong.modulus ->
  0 <= addWaterSum s ->
  addWaterSum s + intervalSense * Z.of_nat (length ps) <= addWater ->
  dryTimeSum (irrigateAll ps s) = dryTimeSum s + intervalSense * Z.of_nat (length ps) /\
  addWaterSum (irrigateAll ps s) = addWaterSum s + intervalSense * Z.of_nat (length ps) /\
  RELAY_PIN (irrigateAll ps s) = HIGH.
Proof.
  induction ps as [|p ps IH]; intros s Hne Hdry Hd Hm Ha0 Ha; [congruence|].
  unfold allDry in Hdry. cbn [forallb] in Hdry.
  apply andb_prop in Hdry. destruct Hdry as [Hp Hps].
  rewrite irrigateAll_cons.
  destruct (irrigate_dosing p s Hp) as (Ed & Ea & Er).
  { cbn [length] in Hm. unfold intervalSense in *. lia. }
  { cbn [length] in Ha. unfold intervalSense in *. lia. }
  destruct ps as [|q ps].
  - cbn [irrigateAll fold_left length]. rewrite Ed, Ea, Er.
    repeat split; auto; unfold intervalSense; lia.
  - specialize (IH (irrigate p s)).
    rewrite irrigate_threshold, Ed, Ea in IH.
    destruct IH as (Ed' & Ea' & Er'); try congruence; auto;
      cbn [length] in *; unfold intervalSense in *; try lia.
    repeat split; auto; lia.
Qed.

(** ** One watering cycle under dry readings *)

Lemma split_at (k : nat) (ps : list float) :
  (k <= length ps)%nat ->
  ps = firstn k ps ++ skipn k ps /\
  length (firstn k ps) = k /\ length (skipn k ps) = (length ps - k)%nat.
Proof.
  intros H. split; [now rewrite firstn_skipn|].
  split; [apply firstn_length_le; assumption | apply length_skipn].
Qed.

Lemma allDry_skipn thr k ps :
  allDry thr ps = true -> allDry thr (skipn k ps) = true.
Proof.
  intros H. rewrite <- (firstn_skipn k ps), allDry_app in H.
  apply andb_prop in H. tauto.
Qed.

Lemma cycle_confirming ps s :
  coldStart s -> allDry (thresholdAddWater s) ps = true ->
  (length ps <= 179)%nat ->
  dryTimeSum (irrigateAll ps s) = intervalSense * Z.of_nat (length ps) /\
  addWaterSum (irrigateAll ps s) = 0 /\
  RELAY_PIN (irrigateAll ps s) = LOW.
Proof.
  intros (Hd & Ha & Hr) Hdry Hlen.
  destruct (confirming_run ps s) as (Ed & Ea & Er).
  - lia.
  - rewrite (dryCount_allDry _ _ Hdry), Hd. unfold intervalSense, dryTime. lia.
  - rewrite (dryCount_allDry _ _ Hdry), Hd in Ed.
    rewrite Ed, Ea, Ha. auto.
Qed.

Lemma cycle_dosing ps s :
  coldStart s -> allDry (thresholdAddWater s) ps = true ->
  (180 <= length ps <= 199)%nat ->
  dryTimeSum (irrigateAll ps s) = intervalSense * Z.of_nat (length ps) /\
  addWaterSum (irrigateAll ps s) = intervalSense * (Z.of_nat (length ps) - 179) /\
  RELAY_PIN (irrigateAll ps s) = HIGH.
Proof.
  intros Hs Hdry Hlen.
  destruct (split_at 179 ps) as (E & L1 & L2); [lia|].
  rewrite E, irrigateAll_app.
  destruct (cycle_confirming (firstn 179 ps) s) as (Ed & Ea & Er);
    auto using allDry_firstn; [lia|].
  rewrite L1 in Ed.
  destruct (dosing_run (skipn 179 ps) (irrigateAll (firstn 179 ps) s))
    as (Ed' & Ea' & Er').
  - intros H. rewrite H in L2. cbn in L2. lia.
  - rewrite irrigateAll_threshold. now apply allDry_skipn.
  - rewrite Ed. unfold dryTime, intervalSense. lia.
  - rewrite Ed, L2. unfold ULong.modulus, intervalSense. lia.
  - lia.
  - rewrite Ea, L2. unfold addWater, intervalSense. lia.
  - rewrite Ed', Ea', Er', Ed, Ea, length_app, L1, L2.
    unfold intervalSense. repeat split; lia.
Qed.

Lemma cycle_soak ps s :
  coldStart s -> allDry (thresholdAddWater s) ps = true ->
  length ps = 200%nat ->
  coldStart (irrigateAll ps s).
Proof.
  intros Hs Hdry Hlen.
  destruct (split_at 199 ps) as (E & L1 & L2); [lia|].
  destruct (skipn 199 ps) as [|p [|q qs]] eqn:Eq; cbn [length] in L2; try lia.
  rewrite E, irrigateAll_snoc.
  destruct (cycle_dosing (firstn 199 ps) s) as (Ed & Ea & Er);
    auto using allDry_firstn; [lia|].
  rewrite L1 in Ed, Ea.
  apply irrigate_soak.
  - rewrite irrigateAll_threshold.
    pose proof (allDry_skipn _ 199 _ Hdry) as H. rewrite Eq in H.
    unfold allDry in H. cbn in H. now rewrite andb_true_r in H.
  - rewrite Ed. unfold dryTime, intervalSense, ULong.modulus. lia.
  - rewrite Ea. unfold addWater, intervalSense. lia.
Qed.

(** C2. With [dryTime = 180000] and [intervalSense = 1000], from zeroed
    counters and the pump off: during 179 consecutive sampling ticks whose
    reading is below the threshold the pump stays off, and the 180th such
    tick switches it on. *)
Theorem dry_confirmation_delay (s : State) (ps : list float) (p : float) :
  dryTimeSum s = 0 -> addWaterSum s = 0 -> RELAY_PIN s = LOW ->
  length ps = 179%nat ->
  allDry (thresholdAddWater s) (ps ++ [p]) = true ->
  (forall k, (k <= 179)%nat -> RELAY_PIN (irrigateAll (firstn k ps) s) = LOW) /\
  RELAY_PIN (irrigateAll (ps ++ [p]) s) = HIGH.
Proof.
  intros Hd Ha Hr Hlen Hdry.
  assert (Hs : coldStart s) by (repeat split; assumption).
  pose proof Hdry as Hdry'. rewrite allDry_app in Hdry'.
  apply andb_prop in Hdry'. destruct Hdry' as [Hps _].
  split.
  - intros k Hk. apply cycle_confirming; auto using allDry_firstn.
    rewrite length_firstn. lia.
  - apply cycle_dosing; auto. rewrite length_app, Hlen. cbn. lia.
Qed.

Lemma allDry_repeat thr p n :
  isDry thr p = true -> allDry thr (repeat p n) = true.
Proof.
  intros H. unfold allDry. induction n as [|n IH]; [reflexivity|].
  cbn. now rewrite H, IH.
Qed.

Lemma dry_confirmation_delay_witness :
  (forall k, (k <= 179)%nat ->
     RELAY_PIN (irrigateAll (firstn k (repeat (F32.of_int 30) 179)) setup) = LOW) /\
  RELAY_PIN (irrigateAll (repeat (F32.of_int 30) 179 ++ [F32.of_int 30]) setup) = HIGH.
Proof.
  apply (dry_confirmation_delay setup (repeat (F32.of_int 30) 179) (F32.of_int 30)).
  - reflexivity.
  - reflexivity.
  - reflexivity.
  - reflexivity.
  - vm_compute. reflexivity.
Defined.

(** ** Comparison of [float] values *)

Lemma SFcompare_antisym (x y : float) :
  SFcompare y x = option_map CompOpp (SFcompare x y).
Proof.
  destruct x as [sx|sx| |sx mx ex], y as [sy|sy| |sy my ey]; cbn;
    try reflexivity;
    try (destruct sx; reflexivity); try (destruct sy; reflexivity);
    try (destruct sx, sy; reflexivity).
  rewrite (Z.compare_antisym ex ey).
  change (Pos.compare_cont Eq my mx) with (Pos.compare my mx).
  change (Pos.compare_cont Eq mx my) with (Pos.compare mx my).
  rewrite (Pos.compare_antisym mx my).
  destruct sx, sy; cbn; try reflexivity;
    destruct (ex ?= ey); cbn; try reflexivity;
    destruct (mx ?= my)%positive; reflexivity.
Qed.

(** A reading [p >= thr] takes the else branch of line 141. *)
Lemma geb_not_dry (thr p : float) :
  F32.leb thr p = true -> isDry thr p = false.
Proof.
  unfold isDry, F32.leb, F32.ltb, SFleb, SFltb.
  rewrite (SFcompare_antisym thr p).
  destruct (SFcompare thr p) as [[| |]|]; cbn; congruence.
Qed.




(** C4, as the code has it. With the threshold at 37.0 and the reading
    held at 30.0, from zeroed counters and the pump off: the pump is off
    after ticks 1 to 179, on after ticks 180 to 199, and tick 200 switches
    it off with both counters at zero; the count then restarts, tick
    200 + k leaving the dry time at k sampling intervals. *)
Theorem end_to_end_dry_run (s : State) (k : nat) :
  thresholdAddWater s = F32.of_int 37 ->
  dryTimeSum s = 0 -> addWaterSum s = 0 -> RELAY_PIN s = LOW ->
  let after n := irrigateAll (repeat (F32.of_int 30) n) s in
  ((1 <= k <= 179)%nat -> RELAY_PIN (after k) = LOW) /\
  ((180 <= k <= 199)%nat -> RELAY_PIN (after k) = HIGH) /\
  (RELAY_PIN (after 200%nat) = LOW /\
   dryTimeSum (after 200%nat) = 0 /\ addWaterSum (after 200%nat) = 0) /\
  ((1 <= k <= 179)%nat ->
   RELAY_PIN (after (200 + k)%nat) = LOW /\
   dryTimeSum (after (200 + k)%nat) = intervalSense * Z.of_nat k).
Proof.
  intros Ht Hd Ha Hr after.
  assert (Hs : coldStart s) by (repeat split; assumption).
  assert (Hdry : forall n, allDry (thresholdAddWater s) (repeat (F32.of_int 30) n) = true).
  { intros n. apply allDry_repeat. rewrite Ht. vm_compute. reflexivity. }
  assert (H200 : coldStart (after 200%nat)).
  { apply cycle_soak; auto using repeat_length. }
  split; [|split; [|split]].
  - intros Hk. apply cycle_confirming; auto. rewrite repeat_length. lia.
  - intros Hk. apply cycle_dosing; auto. rewrite repeat_length. lia.
  - destruct H200 as (? & ? & ?). auto.
  - intros Hk. unfold after. rewrite repeat_app, irrigateAll_app.
    destruct (cycle_confirming (repeat (F32.of_int 30) k) (after 200%nat))
      as (Ed & _ & Er); auto.
    + unfold after. rewrite irrigateAll_threshold. apply Hdry.
    + rewrite repeat_length. lia.
    + rewrite repeat_length in Ed. auto.
Qed.

Lemma end_to_end_dry_run_witness :
  let after n := irrigateAll (repeat (F32.of_int 30) n) setup in
  RELAY_PIN (after 7%nat) = LOW /\
  (RELAY_PIN (after 200%nat) = LOW /\
   dryTimeSum (after 200%nat) = 0 /\ addWaterSum (after 200%nat) = 0) /\
  (RELAY_PIN (after 207%nat) = LOW /\ dryTimeSum (after 207%nat) = 7000).
Proof.
  destruct (end_to_end_dry_run setup 7 eq_refl eq_refl eq_refl eq_refl)
    as (H1 & _ & H3 & H4).
  split; [apply H1; lia | split; [exact H3 | apply H4; lia]].
Defined.

(** C4 as stated fails on the code: with the threshold at 37.0 and the
    reading held at 30.0 from [setup], the pump is already on after tick
    180 and already off, with both counters at zero, after tick 200. *)
Lemma end_to_end_as_stated_fails :
  let after n := irrigateAll (repeat (F32.of_int 30) n) setup in
  thresholdAddWater setup = F32.of_int 37 /\
  RELAY_PIN (after 180%nat) = HIGH /\
  RELAY_PIN (after 200%nat) = LOW /\
  dryTimeSum (after 200%nat) = 0 /\ addWaterSum (after 200%nat) = 0 /\
  dryTimeSum (after 201%nat) = 1000.
Proof. vm_compute. repeat split; reflexivity. Qed.

(** C8. From both counters at zero and the pump off, any number of sampling
    ticks whose reading is at or above the threshold leaves both counters
    at zero and the pump off. *)
Theorem satisfied_idempotent (s : State) (ps : list float) :
  dryTimeSum s = 0 -> addWaterSum s = 0 -> RELAY_PIN s = LOW ->
  allSatisfied (thresholdAddWater s) ps = true ->
  dryTimeSum (irrigateAll ps s) = 0 /\
  addWaterSum (irrigateAll ps s) = 0 /\
  RELAY_PIN (irrigateAll ps s) = LOW.
Proof.
  revert s. induction ps as [|p ps IH]; intros s Hd Ha Hr Hall.
  - cbn. auto.
  - unfold allSatisfied in Hall. cbn [forallb] in Hall.
    apply andb_prop in Hall. destruct Hall as [Hp Hps].
    destruct (irrigate_happy p s (geb_not_dry _ _ Hp)) as (Ed & Ea & Er).
    rewrite irrigateAll_cons. apply IH.
    + congruence.
    + congruence.
    + assumption.
    + unfold allSatisfied. now rewrite irrigate_threshold.
Qed.

Lemma satisfied_idempotent_witness :
  let ps := repeat (F32.of_int 40) 5 in
  dryTimeSum (irrigateAll ps setup) = 0 /\
  addWaterSum (irrigateAll ps setup) = 0 /\
  RELAY_PIN (irrigateAll ps setup) = LOW.
Proof.
  apply (satisfied_idempotent setup (repeat (F32.of_int 40) 5));
    vm_compute; reflexivity.
Defined.

(** The else branch of line 165 as it is written: a sampling tick whose
    reading is at or above the threshold writes the relay LOW and assigns
    neither counter, so a dry tick after it changes the counters exactly
    as it would have without the satisfied tick. This is the missing
    reset that the theorem after this one evaluates. *)
Theorem satisfied_tick_keeps_counters (s : State) (p q : float) :
  F32.leb (thresholdAddWater s) p = true ->
  RELAY_PIN (irrigate p s) = LOW /\
  dryTimeSum (irrigate p s) = dryTimeSum s /\
  addWaterSum (irrigate p s) = addWaterSum s /\
  dryTimeSum (irrigate q (irrigate p s)) = dryTimeSum (irrigate q s) /\
  addWaterSum (irrigate q (irrigate p s)) = addWaterSum (irrigate q s) /\
  (isDry (thresholdAddWater s) q = true ->
   0 <= dryTimeSum s -> dryTimeSum s + intervalSense < dryTime ->
   dryTimeSum (irrigate q (irrigate p s)) = dryTimeSum s + intervalSense).
Proof.
  intros Hp. apply geb_not_dry in Hp.
  destruct (irrigate_happy p s Hp) as (Ed & Ea & Er).
  assert (Hq : dryTimeSum (irrigate q (irrigate p s)) = dryTimeSum (irrigate q s) /\
               addWaterSum (irrigate q (irrigate p s)) = addWaterSum (irrigate q s)).
  { pose proof (irrigate_threshold p s) as Et.
    revert Ed Ea Et. generalize (irrigate p s). intros s' Ed Ea Et.
    unfold irrigate; cbn -[ULong.add ULong.sub Z.leb Z.ltb String.append].
    rewrite Ed, Ea, Et.
    repeat match goal with
    | |- context [if ?b then _ else _] => destruct b eqn:?
    end; cbn; auto. }
  destruct Hq as (Eqd & Eqa).
  repeat split; auto.
  intros Hq H0 H1. rewrite Eqd.
  now destruct (irrigate_confirming q s Hq H0 H1) as (E & _).
Qed.

Lemma satisfied_tick_keeps_counters_witness :
  let s := irrigateAll (repeat (F32.of_int 30) 90) setup in
  let p := F32.of_int 40 in
  let q := F32.of_int 30 in
  RELAY_PIN (irrigate p s) = LOW /\
  dryTimeSum (irrigate p s) = dryTimeSum s /\
  addWaterSum (irrigate p s) = addWaterSum s /\
  dryTimeSum (irrigate q (irrigate p s)) = dryTimeSum s + intervalSense.
Proof.
  intros s p q.
  assert (Hp : F32.leb (thresholdAddWater s) p = true) by (vm_compute; reflexivity).
  assert (Hq : isDry (thresholdAddWater s) q = true) by (vm_compute; reflexivity).
  assert (H0 : 0 <= dryTimeSum s) by (vm_compute; discriminate).
  assert (H1 : dryTimeSum s + intervalSense < dryTime) by (vm_compute; reflexivity).
  destruct (satisfied_tick_keeps_counters s p q Hp) as (R1 & R2 & R3 & _ & _ & R6).
  exact (conj R1 (conj R2 (conj R3 (R6 Hq H0 H1)))).
Defined.

(** C1. The code breaks the claim. The header of the sketch asks to "wait
    at least x minutes that the water sensor senses dry soil, not to
    trigger the pump on a false reading", and lines 139-140 to switch the
    pump on if the "soil is dry for dryTime"; but the else branch of line
    165 resets no counter. From [setup], with the threshold at 37.0:
    after 90 dry ticks a tick reading 40.0 leaves the dry time at 90000
    instead of 0, and the next dry tick brings it to 91000 instead of
    1000; and after 179 dry ticks followed by 1000 satisfied ticks, one
    single dry reading switches the pump on. *)
Theorem satisfied_tick_does_not_reset :
  let dry := F32.of_int 30 in
  let wet := F32.of_int 40 in
  let s := irrigateAll (repeat dry 90) setup in
  isDry (thresholdAddWater setup) dry = true /\
  F32.leb (thresholdAddWater setup) wet = true /\
  dryTimeSum (irrigate wet s) = 90000 /\
  addWaterSum (irrigate wet s) = 0 /\
  RELAY_PIN (irrigate wet s) = LOW /\
  dryTimeSum (irrigate dry (irrigate wet s)) = 91000 /\
  RELAY_PIN (irrigateAll (repeat dry 179 ++ repeat wet 1000) setup) = LOW /\
  RELAY_PIN (irrigateAll (repeat dry 179 ++ repeat wet 1000 ++ [dry]) setup) = HIGH.
Proof. vm_compute. repeat split; reflexivity. Qed.

(** ** Invariant of the two counters *)

Lemma irrigate_countersOk p s :
  countersOk s -> countersOk (irrigate p s) /\ stepOk s (irrigate p s).
Proof.
  unfold countersOk, waiting, dosing, stepOk.
  intros H.
  destruct (isDry (thresholdAddWater s) p) eqn:Hp.
  - destruct (Z_lt_dec (dryTimeSum s + intervalSense) dryTime) as [Hlt|Hge].
    + (* still confirming: only a waiting state can be here *)
      destruct H as [(Ha & Hd & Hm & Hr)|(Ha & Hm & Hd)];
        [|counters_lia].
      destruct (irrigate_confirming p s Hp) as (Ed & Ea & Er); [lia|assumption|].
      rewrite Ed, Ea, Er. split.
      * left. repeat split; auto;
          counters_lia.
      * counters_lia.
    + destruct (Z_lt_dec (addWaterSum s) addWater) as [Hlta|Hgea].
      * (* the dose starts or goes on *)
        destruct (irrigate_dosing p s Hp) as (Ed & Ea & Er);
          [ counters_lia
          | counters_lia |].
        rewrite Ed, Ea. split.
        -- right. counters_lia.
        -- counters_lia.
      * (* the dose is complete *)
        destruct (irrigate_soak p s Hp) as (Ed & Ea & Er);
          [ counters_lia
          | lia |].
        rewrite Ed, Ea, Er. split.
        -- left. repeat split; try reflexivity; counters_lia.
        -- counters_lia.
  - destruct (irrigate_happy p s Hp) as (Ed & Ea & Er).
    rewrite Ed, Ea, Er. split.
    + destruct H as [(Ha & Hd & Hm & Hr)|(Ha & Hm & Hd)].
      * left. repeat split; auto; lia.
      * right. repeat split; auto; lia.
    + lia.
Qed.

Lemma readButtons_counters inp s :
  dryTimeSum (readButtons inp s) = dryTimeSum s /\
  addWaterSum (readButtons inp s) = addWaterSum s /\
  RELAY_PIN (readButtons inp s) = RELAY_PIN s.
Proof.
  unfold readButtons.
  destruct (button1_isPressed inp), (button2_isPressed inp); cbn; auto.
Qed.

Lemma showDiff_counters s :
  dryTimeSum (showDiff s) = dryTimeSum s /\
  addWaterSum (showDiff s) = addWaterSum s /\
  RELAY_PIN (showDiff s) = RELAY_PIN s.
Proof.
  unfold showDiff.
  destruct (F32.ltb (soilMoisturePercent s) (thresholdAddWater s)); cbn; auto.
Qed.

Lemma countersOk_ext s s' :
  dryTimeSum s' = dryTimeSum s -> addWaterSum s' = addWaterSum s ->
  RELAY_PIN s' = RELAY_PIN s ->
  countersOk s -> countersOk s'.
Proof.
  unfold countersOk, waiting, dosing. intros -> -> ->. auto.
Qed.

Lemma stepOk_ext s1 s1' s2 s2' :
  dryTimeSum s1' = dryTimeSum s1 -> addWaterSum s1' = addWaterSum s1 ->
  dryTimeSum s2' = dryTimeSum s2 -> addWaterSum s2' = addWaterSum s2 ->
  stepOk s1 s2 -> stepOk s1' s2'.
Proof.
  unfold stepOk. intros -> -> -> ->. auto.
Qed.

Lemma stepOk_refl s s' :
  dryTimeSum s' = dryTimeSum s -> addWaterSum s' = addWaterSum s ->
  stepOk s s'.
Proof. unfold stepOk. intros -> ->. lia. Qed.

Lemma loop_countersOk cal inp s :
  countersOk s -> countersOk (loop cal inp s) /\ stepOk s (loop cal inp s).
Proof.
  intros H. unfold loop.
  destruct (readButtons_counters inp s) as (Bd & Ba & Br).
  assert (Hb : countersOk (readButtons inp s))
    by (apply (countersOk_ext s); assumption).
  destruct (senseDue (millis inp) (readButtons inp s)).
  - unfold sense.
    set (p := moisturePercent cal (analogRead_A0 inp)).
    set (s0 := set_soilMoistureValue _ _).
    destruct (irrigate_countersOk p s0) as (Hc & Hs);
      [apply (countersOk_ext (readButtons inp s)); auto|].
    destruct (showDiff_counters (irrigate p s0)) as (Sd & Sa & Sr).
    split.
    + apply (countersOk_ext (irrigate p s0)); assumption.
    + apply (stepOk_ext s0 s (irrigate p s0) (showDiff (irrigate p s0)));
        [exact (eq_sym Bd) | exact (eq_sym Ba) | assumption | assumption | exact Hs].
  - destruct (showDiff_counters (readButtons inp s)) as (Sd & Sa & Sr).
    split.
    + eapply countersOk_ext; eauto.
    + apply stepOk_refl; congruence.
Qed.

Lemma reachable_countersOk cal s : reachable cal s -> countersOk s.
Proof.
  induction 1 as [|inp s _ IH].
  - left. unfold waiting. cbn. repeat split; try reflexivity; unfold dryTime; lia.
  - now apply loop_countersOk.
Qed.

(** C5, as the code has it. In every state reachable from [setup] by calls
    of [loop], neither counter is negative, [addWaterSum] is at most
    [addWater], and [dryTimeSum], which keeps counting while the dose is
    given, is at most [dryTime + addWater - intervalSense]. *)
Theorem counters_bounded (cal : Calibration) (s : State) :
  reachable cal s ->
  0 <= addWaterSum s <= addWater /\
  0 <= dryTimeSum s <= dryTime + addWater - intervalSense.
Proof.
  intros H. apply reachable_countersOk in H.
  unfold countersOk, waiting, dosing in H. counters_lia.
Qed.

Lemma counters_bounded_witness :
  let s := loop calibration
             {| button1_isPressed := false; button2_isPressed := false;
                millis := 1000; analogRead_A0 := 620 |} setup in
  0 <= addWaterSum s <= addWater /\
  0 <= dryTimeSum s <= dryTime + addWater - intervalSense.
Proof.
  intros s. apply (counters_bounded calibration s).
  apply reachable_loop. apply reachable_setup.
Defined.

(** C10. In every state reachable from [setup] by calls of [loop], a
    positive [addWaterSum] comes with [dryTimeSum >= dryTime]; and at any
    further call of [loop], [addWaterSum] advances only with [dryTime]
    reached, and if either counter goes down both are zero afterwards. *)
Theorem dose_only_after_confirmation (cal : Calibration) (s : State) :
  reachable cal s ->
  (0 < addWaterSum s -> dryTime <= dryTimeSum s) /\
  forall inp,
    let s' := loop cal inp s in
    (addWaterSum s < addWaterSum s' -> dryTime <= dryTimeSum s') /\
    (dryTimeSum s' < dryTimeSum s \/ addWaterSum s' < addWaterSum s ->
     dryTimeSum s' = 0 /\ addWaterSum s' = 0).
Proof.
  intros H. apply reachable_countersOk in H. split.
  - unfold countersOk, waiting, dosing in H. counters_lia.
  - intros inp. apply (loop_countersOk cal inp s H).
Qed.

(** ** Scenarios through [loop] *)

Lemma reachable_run cal inps : forall s,
  reachable cal s -> reachable cal (run cal inps s).
Proof.
  induction inps as [|inp inps IH]; intros s H; [exact H|].
  cbn. apply IH. now apply reachable_loop.
Qed.

Lemma dose_only_after_confirmation_witness :
  let next t := {| button1_isPressed := false; button2_isPressed := false;
                   millis := t; analogRead_A0 := 620 |} in
  let s := run calibration (everySecond 620 185) setup in
  let s' := loop calibration (next 186000) s in
  let t := run calibration (everySecond 620 199) setup in
  let t' := loop calibration (next 200000) t in
  (0 < addWaterSum s /\ dryTime <= dryTimeSum s) /\
  (addWaterSum s < addWaterSum s' /\ dryTime <= dryTimeSum s') /\
  (addWaterSum t' < addWaterSum t /\ dryTimeSum t' = 0 /\ addWaterSum t' = 0).
Proof.
  intros next s s' t t'.
  destruct (dose_only_after_confirmation calibration s) as (H1 & H2);
    [apply reachable_run, reachable_setup|].
  destruct (dose_only_after_confirmation calibration t) as (_ & H3);
    [apply reachable_run, reachable_setup|].
  destruct (H2 (next 186000)) as (H2a & _).
  destruct (H3 (next 200000)) as (_ & H3b).
  assert (P1 : 0 < addWaterSum s) by (vm_compute; reflexivity).
  assert (P2 : addWaterSum s < addWaterSum s') by (vm_compute; reflexivity).
  assert (P3 : addWaterSum t' < addWaterSum t) by (vm_compute; reflexivity).
  split; [exact (conj P1 (H1 P1))|].
  split; [exact (conj P2 (H2a P2))|].
  exact (conj P3 (H3b (or_intror P3))).
Defined.

(** C5 as stated fails on the code: 182 calls of [loop] one second apart on
    the raw reading 620 (0 percent) reach a state whose dry time, 182000,
    is more than one sampling interval above [dryTime]. *)
Lemma dry_time_runs_past_dryTime :
  let s := run calibration (everySecond 620 182) setup in
  reachable calibration s /\
  dryTimeSum s = 182000 /\
  dryTime + intervalSense < dryTimeSum s.
Proof.
  split; [apply reachable_run, reachable_setup|].
  vm_compute. split; reflexivity.
Qed.

(** ** Facts about [float] arithmetic *)

Module F32Facts.

Import F32.

Lemma iter_xO_value p k : Zpos (Pos.iter xO p k) = Zpos p * 2 ^ Zpos k.
Proof.
  revert p. induction k using Pos.peano_ind; intros p.
  - cbn. lia.
  - rewrite Pos.iter_succ, Pos2Z.inj_succ, Z.pow_succ_r by lia.
    rewrite Pos2Z.inj_xO, IHk. lia.
Qed.

Lemma shl_value p z : 0 <= z -> Zpos (shl p z) = Zpos p * 2 ^ z.
Proof.
  destruct z as [|k|k]; intros H; cbn [shl]; try lia.
  apply iter_xO_value.
Qed.

Lemma digits_iter_xO p k :
  Zpos (digits2_pos (Pos.iter xO p k)) = Zpos (digits2_pos p) + Zpos k.
Proof.
  induction k using Pos.peano_ind.
  - cbn. lia.
  - rewrite Pos.iter_succ. cbn [digits2_pos]. lia.
Qed.

Lemma digits_shl p z :
  0 <= z -> Zpos (digits2_pos (shl p z)) = Zpos (digits2_pos p) + z.
Proof.
  destruct z as [|k|k]; intros H; cbn [shl]; try lia.
  apply digits_iter_xO.
Qed.

Lemma shl_shl p a b : 0 <= a -> 0 <= b -> shl (shl p a) b = shl p (a + b).
Proof.
  intros Ha Hb. apply Pos2Z.inj.
  rewrite !shl_value, Z.pow_add_r by lia. lia.
Qed.

(** Shifting out [k] zero bits loses nothing. *)
Lemma shr_iter_xO k : forall q,
  iter_pos shr_1 k (Build_shr_record (Zpos (Pos.iter xO q k)) false false)
  = Build_shr_record (Zpos q) false false.
Proof.
  induction k as [k IH|k IH|]; intros q; cbn [iter_pos Pos.iter].
  - cbn [shr_1 orb]. now rewrite !IH.
  - now rewrite !IH.
  - reflexivity.
Qed.

Lemma shr_exact q e z :
  0 <= z ->
  shr (Build_shr_record (Zpos (shl q z)) false false) e z
  = (Build_shr_record (Zpos q) false false, e + z).
Proof.
  destruct z as [|k|k]; intros H; cbn [shr shl]; try lia.
  - f_equal. lia.
  - now rewrite shr_iter_xO.
Qed.

Lemma fexp_in_range z :
  3 - emax - prec <= z - prec -> fexp prec emax z = z - prec.
Proof. intros H. unfold fexp, emin. lia. Qed.

(** A mantissa of exactly 24 bits followed by [z] zero bits rounds to
    itself. *)
Lemma binary_round_aux_exact s p z e :
  Zpos (digits2_pos p) = prec -> 0 <= z ->
  3 - emax - prec <= e + z <= emax - prec ->
  binary_round_aux prec emax s (Zpos (shl p z)) e loc_Exact
  = S754_finite s p (e + z).
Proof.
  intros Hd Hz He.
  unfold binary_round_aux, shr_fexp.
  cbn [Zdigits2 shr_record_of_loc].
  rewrite digits_shl, Hd, fexp_in_range by lia.
  replace (prec + z + e - prec - e) with z by lia.
  rewrite shr_exact by assumption.
  cbn [shr_m loc_of_shr_record round_nearest_even Zdigits2 shr_record_of_loc].
  rewrite Hd, fexp_in_range by lia.
  replace (prec + (e + z) - prec - (e + z)) with 0 by lia.
  cbn [shr shr_m].
  destruct (Z.leb_spec (e + z) (emax - prec)); [reflexivity | lia].
Qed.

(** Rounding is exact on [p * 2 ^ j * 2 ^ e] when [p] has at most 24 bits
    and the exponent of the result is in range. *)
Lemma binary_round_exact s p j e :
  let d := Zpos (digits2_pos p) in
  d <= prec -> 0 <= j ->
  3 - emax - prec <= e + j + d - prec <= emax - prec ->
  binary_round prec emax s (shl p j) e
  = S754_finite s (shl p (prec - d)) (e + j + d - prec).
Proof.
  intros d Hd Hj He.
  assert (Hcan : Zpos (digits2_pos (shl p (prec - d))) = prec).
  { rewrite digits_shl by lia. fold d. lia. }
  unfold binary_round, shl_align.
  rewrite digits_shl by assumption. fold d.
  rewrite fexp_in_range by lia.
  destruct (d + j + e - prec - e) as [|k|k] eqn:Ek.
  - replace (shl p j) with (shl (shl p (prec - d)) 0)
      by (rewrite shl_shl by lia; f_equal; lia).
    rewrite binary_round_aux_exact; auto; try lia. f_equal. lia.
  - replace (shl p j) with (shl (shl p (prec - d)) (Zpos k))
      by (rewrite shl_shl by lia; f_equal; lia).
    rewrite binary_round_aux_exact; auto; try lia. f_equal. lia.
  - change (Pos.iter xO (shl p j) k) with (shl (shl p j) (Zpos k)).
    rewrite shl_shl by lia.
    replace (j + Zpos k) with (prec - d) by lia.
    replace (shl p (prec - d)) with (shl (shl p (prec - d)) 0) at 1
      by reflexivity.
    rewrite binary_round_aux_exact; auto; try lia. f_equal. lia.
Qed.

Lemma digits2_pos_lower q : 2 ^ (Zpos (digits2_pos q) - 1) <= Zpos q.
Proof.
  induction q as [q IH|q IH|]; cbn [digits2_pos]; [| |cbn; lia].
  - rewrite Pos2Z.inj_succ.
    replace (Z.succ (Zpos (digits2_pos q)) - 1)
      with (Z.succ (Zpos (digits2_pos q) - 1)) by lia.
    rewrite Z.pow_succ_r by lia. lia.
  - rewrite Pos2Z.inj_succ.
    replace (Z.succ (Zpos (digits2_pos q)) - 1)
      with (Z.succ (Zpos (digits2_pos q) - 1)) by lia.
    rewrite Z.pow_succ_r by lia. lia.
Qed.

Lemma digits2_pos_le_prec q : Zpos q < 2 ^ prec -> Zpos (digits2_pos q) <= prec.
Proof.
  intros H.
  destruct (Z_le_gt_dec (Zpos (digits2_pos q)) prec) as [|Hgt]; [assumption|].
  pose proof (digits2_pos_lower q) as Hl.
  assert (2 ^ prec <= 2 ^ (Zpos (digits2_pos q) - 1))
    by (apply Z.pow_le_mono_r; lia).
  lia.
Qed.

(** Rounding [q * 2 ^ k * 2 ^ e], given by its value. *)
Lemma binary_round_value s m q k e :
  Zpos m = Zpos q * 2 ^ k -> 0 <= k ->
  Zpos q < 2 ^ prec ->
  -23 <= e + k + Zpos (digits2_pos q) - prec <= 0 ->
  binary_round prec emax s m e
  = S754_finite s (shl q (prec - Zpos (digits2_pos q)))
      (e + k + Zpos (digits2_pos q) - prec).
Proof.
  intros Hm Hk Hq He.
  assert (E : m = shl q k) by (apply Pos2Z.inj; now rewrite shl_value).
  rewrite E. apply binary_round_exact.
  - now apply digits2_pos_le_prec.
  - assumption.
  - unfold emax, prec in *. lia.
Qed.

(** The [float] of a non-zero integer below [2 ^ 24] in magnitude. *)
Lemma of_int_finite z :
  z <> 0 -> Z.abs z < 2 ^ prec ->
  exists m e,
    of_int z = S754_finite (z <? 0) m e /\
    -23 <= e <= 0 /\ Zpos m = Z.abs z * 2 ^ (- e).
Proof.
  intros Hz Hlt. unfold of_int.
  destruct z as [|q|q]; [congruence| |]; cbn [binary_normalize Z.ltb Z.compare];
    cbn [Z.abs] in Hlt;
    pose proof (digits2_pos_le_prec q Hlt) as Hd;
    pose proof (Pos2Z.is_pos (digits2_pos q)) as Hd0;
    ( rewrite (binary_round_value _ q q 0 0); [|lia|lia|assumption|unfold prec in *; lia];
      eexists; eexists; split; [reflexivity|];
      split; [unfold prec in *; lia|];
      rewrite shl_value by lia; cbn [Z.abs]; f_equal; f_equal; lia ).
Qed.

(** [z * 2 ^ (- e)] scaled back by [2 ^ e] is the [float] of [z]. *)
Lemma normalize_exact z e :
  e <= 0 -> Z.abs z < 2 ^ prec ->
  binary_normalize prec emax (z * 2 ^ (- e)) e false = of_int z.
Proof.
  intros He Hlt. unfold of_int.
  assert (Hp : 0 < 2 ^ (- e)) by (apply Z.pow_pos_nonneg; lia).
  destruct z as [|q|q]; [reflexivity| |].
  - destruct (Zpos q * 2 ^ (- e)) as [|m|m] eqn:Em; try lia.
    cbn [binary_normalize Z.abs] in *.
    pose proof (digits2_pos_le_prec q Hlt) as Hd.
    pose proof (Pos2Z.is_pos (digits2_pos q)) as Hd0.
    rewrite (binary_round_value _ m q (- e) e); auto; [|lia|unfold prec in *; lia].
    rewrite (binary_round_value _ q q 0 0); auto; try lia; [|unfold prec in *; lia].
    f_equal. lia.
  - destruct (Zneg q * 2 ^ (- e)) as [|m|m] eqn:Em; try lia.
    cbn [binary_normalize Z.abs] in *.
    pose proof (digits2_pos_le_prec q Hlt) as Hd.
    pose proof (Pos2Z.is_pos (digits2_pos q)) as Hd0.
    rewrite (binary_round_value _ m q (- e) e); auto; try lia; [|unfold prec in *; lia].
    rewrite (binary_round_value _ q q 0 0); auto; try lia; [|unfold prec in *; lia].
    f_equal. lia.
Qed.

Lemma shl_align_value m e ez :
  ez <= e -> Zpos (fst (shl_align m e ez)) = Zpos m * 2 ^ (e - ez).
Proof.
  intros H. unfold shl_align.
  destruct (ez - e) as [|k|k] eqn:Ek; cbn [fst]; try lia.
  - replace (e - ez) with 0 by lia. cbn. lia.
  - rewrite iter_xO_value. f_equal. f_equal. lia.
Qed.

Lemma aligned_value z m e ez :
  Zpos m = Z.abs z * 2 ^ (- e) -> ez <= e -> e <= 0 ->
  cond_Zopp (z <? 0) (Zpos (fst (shl_align m e ez))) = z * 2 ^ (- ez).
Proof.
  intros Hm Hez He.
  rewrite shl_align_value, Hm by assumption.
  replace (- ez) with (- e + (e - ez)) by lia.
  rewrite Z.pow_add_r by lia.
  destruct (Z.ltb_spec z 0); cbn [cond_Zopp]; lia.
Qed.

Lemma of_int_opp z :
  z <> 0 -> Z.abs z < 2 ^ prec -> of_int (- z) = SFopp (of_int z).
Proof.
  intros Hz Hlt. unfold of_int.
  destruct z as [|q|q]; [congruence| |];
    cbn [Z.opp binary_normalize Z.abs] in *;
    pose proof (digits2_pos_le_prec q Hlt) as Hd;
    pose proof (Pos2Z.is_pos (digits2_pos q)) as Hd0;
    rewrite !(binary_round_value _ q q 0 0) by (unfold prec in *; lia);
    reflexivity.
Qed.

(** Sums and differences of integers are exact while every value stays
    below [2 ^ 24] in magnitude. *)
Lemma add_of_int a b :
  Z.abs a < 2 ^ prec -> Z.abs b < 2 ^ prec -> Z.abs (a + b) < 2 ^ prec ->
  add (of_int a) (of_int b) = of_int (a + b).
Proof.
  intros Ha Hb Hab. unfold add.
  destruct (Z.eq_dec a 0) as [->|Na].
  { destruct (Z.eq_dec b 0) as [->|Nb]; [reflexivity|].
    destruct (of_int_finite b Nb Hb) as (mb & eb & Eb & _).
    rewrite Z.add_0_l, Eb. reflexivity. }
  destruct (of_int_finite a Na Ha) as (ma & ea & Ea & Hea & Hma).
  destruct (Z.eq_dec b 0) as [->|Nb].
  { rewrite Z.add_0_r, Ea. reflexivity. }
  destruct (of_int_finite b Nb Hb) as (mb & eb & Eb & Heb & Hmb).
  rewrite Ea, Eb. cbn [SFadd].
  rewrite (aligned_value a), (aligned_value b) by (assumption || lia).
  rewrite <- Z.mul_add_distr_r.
  apply normalize_exact; [lia | assumption].
Qed.

Lemma sub_of_int a b :
  Z.abs a < 2 ^ prec -> Z.abs b < 2 ^ prec -> Z.abs (a - b) < 2 ^ prec ->
  sub (of_int a) (of_int b) = of_int (a - b).
Proof.
  intros Ha Hb Hab. unfold sub.
  destruct (Z.eq_dec b 0) as [->|Nb].
  { rewrite Z.sub_0_r.
    destruct (Z.eq_dec a 0) as [->|Na]; [reflexivity|].
    destruct (of_int_finite a Na Ha) as (ma & ea & Ea & _).
    rewrite Ea. reflexivity. }
  destruct (of_int_finite b Nb Hb) as (mb & eb & Eb & Heb & Hmb).
  destruct (Z.eq_dec a 0) as [->|Na].
  { change (0 - b) with (- b). rewrite (of_int_opp b Nb Hb), Eb. reflexivity. }
  destruct (of_int_finite a Na Ha) as (ma & ea & Ea & Hea & Hma).
  rewrite Ea, Eb. cbn [SFsub].
  rewrite (aligned_value a), (aligned_value b) by (assumption || lia).
  rewrite <- Z.mul_sub_distr_r.
  apply normalize_exact; [lia | assumption].
Qed.

End F32Facts.

(** ** The threshold buttons *)

Lemma showDiff_threshold s :
  thresholdAddWater (showDiff s) = thresholdAddWater s.
Proof.
  unfold showDiff.
  destruct (F32.ltb (soilMoisturePercent s) (thresholdAddWater s)); reflexivity.
Qed.

(** Only lines 117-124 write the threshold. *)
Lemma loop_threshold cal inp s :
  thresholdAddWater (loop cal inp s) = thresholdAddWater (readButtons inp s).
Proof.
  unfold loop. rewrite showDiff_threshold.
  destruct (senseDue (millis inp) (readButtons inp s)); [|reflexivity].
  unfold sense. now rewrite irrigate_threshold.
Qed.

Lemma readButtons_threshold inp s :
  thresholdAddWater (readButtons inp s) =
  let t1 := if button1_isPressed inp
            then F32.add (thresholdAddWater s) (F32.of_int 1)
            else thresholdAddWater s in
  if button2_isPressed inp then F32.sub t1 (F32.of_int 1) else t1.
Proof.
  unfold readButtons.
  destruct (button1_isPressed inp), (button2_isPressed inp); reflexivity.
Qed.

Lemma two_pow_prec : 2 ^ F32.prec = 16777216.
Proof. reflexivity. Qed.










Lemma run_cons cal inp inps s :
  run cal (inp :: inps) s = run cal inps (loop cal inp s).
Proof. reflexivity. Qed.

Lemma run_app cal l1 l2 s :
  run cal (l1 ++ l2) s = run cal l2 (run cal l1 s).
Proof. unfold run. apply fold_left_app. Qed.







(** ** The moisture conversion *)

(** [<=] on [float] values is transitive. *)
Lemma leb_trans (x y z : float) :
  F32.leb x y = true -> F32.leb y z = true -> F32.leb x z = true.
Proof.
  unfold F32.leb, SFleb.
  destruct x as [sx|sx| |sx mx ex], y as [sy|sy| |sy my ey],
    z as [sz|sz| |sz mz ez]; cbn;
    try discriminate; try reflexivity;
    try (destruct sx; try discriminate; try reflexivity);
    try (destruct sy; try discriminate; try reflexivity);
    try (destruct sz; try discriminate; try reflexivity);
    try (intros; reflexivity);
    change (Pos.compare_cont Eq) with Pos.compare;
    destruct (Z.compare_spec ex ey), (Z.compare_spec ey ez),
      (Z.compare_spec ex ez); try discriminate; try reflexivity; try lia;
    destruct (Pos.compare_spec mx my), (Pos.compare_spec my mz),
      (Pos.compare_spec mx mz); cbn; try discriminate; try reflexivity; lia.
Qed.

(** A value that compares with some value is not a NaN. *)
Lemma leb_refl_l (x y : float) : F32.leb x y = true -> F32.leb x x = true.
Proof.
  unfold F32.leb, SFleb.
  destruct x as [sx|sx| |sx mx ex]; cbn; try reflexivity.
  - now destruct sx.
  - destruct y; discriminate.
  - intros _. change (Pos.compare_cont Eq) with Pos.compare.
    rewrite Z.compare_refl, Pos.compare_refl. now destruct sx.
Qed.

Lemma leb_refl_r (x y : float) : F32.leb x y = true -> F32.leb y y = true.
Proof.
  unfold F32.leb, SFleb.
  destruct y as [sy|sy| |sy my ey]; cbn; try reflexivity.
  - now destruct sy.
  - destruct x; discriminate.
  - intros _. change (Pos.compare_cont Eq) with Pos.compare.
    rewrite Z.compare_refl, Pos.compare_refl. now destruct sy.
Qed.

(** What the check [nonIncreasing] establishes, step by step. *)
Lemma nonIncreasing_step f n : forall r k,
  nonIncreasing f n r (f r) = true -> (k < n)%nat ->
  F32.leb (f (r + Z.of_nat k + 1)) (f (r + Z.of_nat k)) = true.
Proof.
  induction n as [|n IH]; intros r k H Hk; [lia|].
  cbn [nonIncreasing] in H. apply andb_prop in H. destruct H as [H1 H2].
  destruct k as [|k].
  - cbn [Z.of_nat]. now rewrite Z.add_0_r.
  - replace (r + Z.of_nat (S k)) with (r + 1 + Z.of_nat k) by lia.
    apply IH; [assumption | lia].
Qed.

(** ... and over any two points of the range. *)
Lemma nonIncreasing_range f n r :
  (0 < n)%nat ->
  nonIncreasing f n r (f r) = true ->
  forall r1 r2, r <= r1 -> r1 <= r2 -> r2 <= r + Z.of_nat n ->
  F32.leb (f r2) (f r1) = true.
Proof.
  intros Hn H r1 r2 H1 H12 H2.
  remember (Z.to_nat (r2 - r1)) as d eqn:Ed.
  revert r2 H12 H2 Ed. induction d as [|d IH]; intros r2 H12 H2 Ed.
  - assert (r2 = r1) by lia. subst r2.
    destruct (Z.eq_dec r1 (r + Z.of_nat n)) as [E|NE].
    + pose proof (nonIncreasing_step f n r (n - 1) H ltac:(lia)) as S.
      replace (r + Z.of_nat (n - 1) + 1) with r1 in S by lia.
      now apply leb_refl_l in S.
    + pose proof (nonIncreasing_step f n r (Z.to_nat (r1 - r)) H ltac:(lia)) as S.
      replace (r + Z.of_nat (Z.to_nat (r1 - r))) with r1 in S by lia.
      now apply leb_refl_r in S.
  - apply (leb_trans _ (f (r2 - 1))).
    + pose proof (nonIncreasing_step f n r (Z.to_nat (r2 - 1 - r)) H ltac:(lia)) as S.
      replace (r + Z.of_nat (Z.to_nat (r2 - 1 - r))) with (r2 - 1) in S by lia.
      replace (r2 - 1 + 1) with r2 in S by lia. exact S.
    + apply IH; lia.
Qed.

(** The conversion checked at every step of the range of [int]. *)
Lemma moisturePercent_steps :
  nonIncreasing (moisturePercent calibration) (Z.to_nat (INT_MAX - INT_MIN))
    INT_MIN (moisturePercent calibration INT_MIN) = true.
Proof. vm_compute. reflexivity. Qed.

(** C6. The conversion is [100 - (raw - WaterValue) / (AirValue -
    WaterValue) * 100] in [float] arithmetic; with [AirValue = 620] and
    [WaterValue = 35] the raw value 620 gives 0 percent, 35 gives 100
    percent, and over the range of [int] a larger raw value never gives a
    larger percentage. *)
Theorem moisture_conversion (r1 r2 : Z) :
  (forall cal raw,
     moisturePercent cal raw =
     F32.sub (F32.of_int 100)
       (F32.mul (F32.div (F32.sub (F32.of_int raw) (WaterValue cal))
                         (F32.sub (AirValue cal) (WaterValue cal)))
                (F32.of_int 100))) /\
  AirValue calibration = F32.of_int 620 /\
  WaterValue calibration = F32.of_int 35 /\
  moisturePercent calibration 620 = F32.of_int 0 /\
  moisturePercent calibration 35 = F32.of_int 100 /\
  (INT_MIN <= r1 -> r1 <= r2 -> r2 <= INT_MAX ->
   F32.leb (moisturePercent calibration r2) (moisturePercent calibration r1) = true).
Proof.
  repeat split; try reflexivity.
  intros H1 H12 H2.
  apply (nonIncreasing_range _ (Z.to_nat (INT_MAX - INT_MIN)) INT_MIN).
  - unfold INT_MAX, INT_MIN. lia.
  - exact moisturePercent_steps.
  - assumption.
  - assumption.
  - unfold INT_MAX, INT_MIN in *. lia.
Qed.

Lemma moisture_conversion_witness :
  moisturePercent calibration 620 = F32.of_int 0 /\
  moisturePercent calibration 35 = F32.of_int 100 /\
  F32.leb (moisturePercent calibration 620) (moisturePercent calibration 35) = true.
Proof.
  destruct (moisture_conversion 35 620) as (_ & _ & _ & H0 & H100 & Hmono).
  split; [exact H0 | split; [exact H100 |]].
  apply Hmono; unfold INT_MIN, INT_MAX; lia.
Defined.

(** ** Equal calibration values *)

(** [c - c] is a zero, or a NaN when [c] is infinite or a NaN. *)
Lemma sub_self (c : float) :
  F32.sub c c = S754_zero false \/ F32.sub c c = S754_nan.
Proof.
  unfold F32.sub.
  destruct c as [[|]|[|]| |s m e]; cbn [SFsub]; auto.
  rewrite Z.sub_diag. left. reflexivity.
Qed.

Lemma of_int_100 : F32.of_int 100 = S754_finite false 13107200 (-17).
Proof. reflexivity. Qed.

(** The percentage computed over a zero or NaN divisor, by the dividend. *)
Lemma percent_over_zero (n d : float) :
  d = S754_zero false \/ d = S754_nan ->
  F32.sub (F32.of_int 100) (F32.mul (F32.div n d) (F32.of_int 100)) =
  match d, n with
  | S754_zero _, S754_finite s _ _ | S754_zero _, S754_infinity s =>
      S754_infinity (negb s)
  | _, _ => S754_nan
  end.
Proof.
  rewrite of_int_100. unfold F32.sub, F32.mul, F32.div.
  intros [-> | ->]; destruct n as [[|]|[|]| |[|] m e]; reflexivity.
Qed.

Lemma moisturePercent_equal_calibration (c : float) (raw : Z) :
  let p := moisturePercent {| AirValue := c; WaterValue := c |} raw in
  p = S754_nan \/ p = S754_infinity true \/ p = S754_infinity false.
Proof.
  unfold moisturePercent. cbn [AirValue WaterValue].
  rewrite (percent_over_zero _ _ (sub_self c)).
  destruct (F32.sub c c); auto;
    destruct (F32.sub (F32.of_int raw) c) as [?|[|]| |[|] ? ?]; cbn; auto.
Qed.

(** With whole-number calibration values, as in the sketch, the sign of
    [raw - WaterValue] decides which of the three it is. *)
Lemma moisturePercent_equal_int (w raw : Z) :
  Z.abs w < 16777216 -> Z.abs raw < 16777216 -> Z.abs (raw - w) < 16777216 ->
  moisturePercent {| AirValue := F32.of_int w; WaterValue := F32.of_int w |} raw =
  match raw ?= w with
  | Gt => S754_infinity true
  | Lt => S754_infinity false
  | Eq => S754_nan
  end.
Proof.
  intros Hw Hr Hd.
  unfold moisturePercent. cbn [AirValue WaterValue].
  rewrite !F32Facts.sub_of_int by (rewrite ?two_pow_prec, ?Z.sub_diag; cbn; lia).
  rewrite Z.sub_diag.
  rewrite percent_over_zero by (left; reflexivity).
  change (F32.of_int 0) with (S754_zero false). cbv iota.
  destruct (Z.compare_spec raw w) as [E|L|G].
  - subst. rewrite Z.sub_diag. reflexivity.
  - destruct (F32Facts.of_int_finite (raw - w)) as (m & e & E & _);
      [lia | rewrite two_pow_prec; assumption |].
    rewrite E. destruct (Z.ltb_spec (raw - w) 0); [reflexivity | lia].
  - destruct (F32Facts.of_int_finite (raw - w)) as (m & e & E & _);
      [lia | rewrite two_pow_prec; assumption |].
    rewrite E. destruct (Z.ltb_spec (raw - w) 0); [lia | reflexivity].
Qed.

(** The lines a tick prints, in the else branch and while dosing. *)
Lemma irrigate_happy_Serial p s :
  isDry (thresholdAddWater s) p = false ->
  Serial (irrigate p s) =
  Serial s ++ [MeasuredMoistureLevel p; PrincessLeaIsHappy;
               DryTimeSumLine (dryTimeSum s); AddWaterSumLine (addWaterSum s)].
Proof.
  intros H. tick_cases. rewrite <- !app_assoc. reflexivity.
Qed.

Lemma irrigate_dosing_Serial p s :
  isDry (thresholdAddWater s) p = true ->
  dryTime <= dryTimeSum s + intervalSense < ULong.modulus ->
  0 <= addWaterSum s < addWater ->
  Serial (irrigate p s) =
  Serial s ++ [MeasuredMoistureLevel p;
               ItsDryNowFor (dryTimeSum s + intervalSense);
               GoingToAddH2O intervalSense (addWaterSum s + intervalSense);
               DryTimeSumLine (dryTimeSum s + intervalSense);
               AddWaterSumLine (addWaterSum s + intervalSense)].
Proof.
  intros H H0 H1.
  assert (E : ULong.add (dryTimeSum s) intervalSense = dryTimeSum s + intervalSense).
  { apply ULong_add_small. unfold dryTime, intervalSense in *. lia. }
  assert (E' : ULong.add (addWaterSum s) intervalSense = addWaterSum s + intervalSense).
  { apply ULong_add_small. unfold ULong.modulus, addWater, intervalSense in *. lia. }
  tick_cases; rewrite ?E, ?E' in *; try lia.
  rewrite <- !app_assoc. reflexivity.
Qed.

(** Minus infinity is below every finite threshold; plus infinity and NaN
    are below none. *)
Lemma isDry_neg_infinity thr :
  F32.is_finite thr = true -> isDry thr (S754_infinity true) = true.
Proof. destruct thr; cbn; congruence. Qed.

Lemma isDry_not_neg_infinity thr p :
  F32.is_finite p = false -> p <> S754_infinity true -> isDry thr p = false.
Proof.
  destruct p as [?|[|]| |], thr as [?|[|]| |]; cbn; congruence.
Qed.

(** C9, as the code has it. With the two calibration values equal the
    sketch checks nothing: the percentage it computes is a NaN or an
    infinity (with whole-number values: minus infinity for a raw value
    above them, plus infinity below, NaN at them), and the tick acts on it
    as on any reading. Minus infinity counts as dry against any finite
    threshold, so the pump is switched on once [dryTime] is reached;
    anything else counts as satisfied. The lines printed are the usual
    ones, none reports the calibration. *)
Theorem equal_calibration_unchecked (c : float) (raw : Z) (s : State) :
  let cal := {| AirValue := c; WaterValue := c |} in
  let p := moisturePercent cal raw in
  F32.is_finite p = false /\
  (forall w, c = F32.of_int w ->
     Z.abs w < 16777216 -> Z.abs raw < 16777216 -> Z.abs (raw - w) < 16777216 ->
     p = match raw ?= w with
         | Gt => S754_infinity true
         | Lt => S754_infinity false
         | Eq => S754_nan
         end) /\
  (p = S754_infinity true ->
   F32.is_finite (thresholdAddWater s) = true ->
   dryTime <= dryTimeSum s + intervalSense < ULong.modulus ->
   0 <= addWaterSum s < addWater ->
   RELAY_PIN (sense cal raw s) = HIGH /\
   Serial (sense cal raw s) =
   Serial s ++ [MeasuredMoistureLevel p;
                ItsDryNowFor (dryTimeSum s + intervalSense);
                GoingToAddH2O intervalSense (addWaterSum s + intervalSense);
                DryTimeSumLine (dryTimeSum s + intervalSense);
                AddWaterSumLine (addWaterSum s + intervalSense)]) /\
  (p <> S754_infinity true ->
   RELAY_PIN (sense cal raw s) = LOW /\
   dryTimeSum (sense cal raw s) = dryTimeSum s /\
   addWaterSum (sense cal raw s) = addWaterSum s /\
   Serial (sense cal raw s) =
   Serial s ++ [MeasuredMoistureLevel p; PrincessLeaIsHappy;
                DryTimeSumLine (dryTimeSum s); AddWaterSumLine (addWaterSum s)]).
Proof.
  intros cal p.
  assert (Hp : F32.is_finite p = false).
  { destruct (moisturePercent_equal_calibration c raw) as [E|[E|E]];
      fold cal p in E; rewrite E; reflexivity. }
  split; [exact Hp|]. split; [|split].
  - intros w -> Hw Hr Hd. now apply moisturePercent_equal_int.
  - intros E Ht Hd Ha. unfold sense. fold p.
    assert (Hdry : isDry (thresholdAddWater (set_soilMoistureValue raw s)) p = true)
      by (rewrite E; now apply isDry_neg_infinity).
    split.
    + now apply (irrigate_dosing p (set_soilMoistureValue raw s)).
    + now apply (irrigate_dosing_Serial p (set_soilMoistureValue raw s)).
  - intros NE. unfold sense. fold p.
    assert (Hdry : isDry (thresholdAddWater (set_soilMoistureValue raw s)) p = false)
      by now apply isDry_not_neg_infinity.
    destruct (irrigate_happy p (set_soilMoistureValue raw s) Hdry) as (Ed & Ea & Er).
    repeat split; auto.
    now apply (irrigate_happy_Serial p (set_soilMoistureValue raw s)).
Qed.

Lemma equal_calibration_unchecked_witness :
  let cal := {| AirValue := F32.of_int 35; WaterValue := F32.of_int 35 |} in
  let s := irrigateAll (repeat (F32.of_int 30) 179) setup in
  F32.is_finite (moisturePercent cal 620) = false /\
  moisturePercent cal 620 = S754_infinity true /\
  RELAY_PIN (sense cal 620 s) = HIGH /\
  RELAY_PIN (sense cal 35 s) = LOW.
Proof.
  intros cal s.
  destruct (equal_calibration_unchecked (F32.of_int 35) 620 s)
    as (H1 & H2 & H3 & _).
  destruct (equal_calibration_unchecked (F32.of_int 35) 35 s)
    as (_ & _ & _ & H4).
  split; [exact H1|]. split; [|split].
  - apply (H2 35); [reflexivity | | | ]; vm_compute; reflexivity.
  - apply H3.
    + vm_compute. reflexivity.
    + vm_compute. reflexivity.
    + vm_compute. split; [discriminate | reflexivity].
    + vm_compute. split; [discriminate | reflexivity].
  - apply H4. vm_compute. discriminate.
Defined.

(** C9 as stated fails on the code: with both calibration values at 35 and
    the sensor reading 620, every tick computes minus infinity, counts as
    dry, and the 180th switches the pump on; the lines printed by that
    tick are those of any other dosing tick. *)
Lemma equal_calibration_waters :
  let cal := {| AirValue := F32.of_int 35; WaterValue := F32.of_int 35 |} in
  let s := run cal (everySecond 620 180) setup in
  AirValue cal = WaterValue cal /\
  soilMoisturePercent s = S754_infinity true /\
  RELAY_PIN s = HIGH /\
  skipn (length (Serial s) - 5) (Serial s) =
  [MeasuredMoistureLevel (S754_infinity true); ItsDryNowFor 180000;
   GoingToAddH2O 1000 1000; DryTimeSumLine 180000; AddWaterSumLine 1000].
Proof. vm_compute. repeat split; reflexivity. Qed.

(** ** Sampling ticks inside [loop] *)

(** The counters, the relay and the threshold after a tick depend only on
    their values before it and on the reading. *)
Lemma irrigate_sameControl p s s' :
  sameControl s s' -> sameControl (irrigate p s) (irrigate p s').
Proof.
  intros (Ht & Hd & Ha & Hr). unfold sameControl, irrigate.
  cbn -[ULong.add ULong.sub Z.leb Z.ltb String.append].
  rewrite Ht, Hd, Ha.
  repeat match goal with
  | |- context [if ?b then _ else _] => destruct b eqn:?
  end; cbn; auto.
Qed.

Lemma showDiff_sameControl s : sameControl (showDiff s) s.
Proof.
  unfold sameControl. rewrite showDiff_threshold.
  destruct (showDiff_counters s) as (-> & -> & ->). auto.
Qed.

Lemma sameControl_trans s1 s2 s3 :
  sameControl s1 s2 -> sameControl s2 s3 -> sameControl s1 s3.
Proof.
  unfold sameControl. intros (-> & -> & -> & ->) (-> & -> & -> & ->). auto.
Qed.

Lemma readButtons_quiet inp s : quiet inp = true -> readButtons inp s = s.
Proof.
  unfold quiet, readButtons.
  destruct (button1_isPressed inp), (button2_isPressed inp);
    cbn; congruence.
Qed.

Lemma showDiff_previousMillis s :
  previousMillisSense (showDiff s) = previousMillisSense s.
Proof.
  unfold showDiff.
  destruct (F32.ltb (soilMoisturePercent s) (thresholdAddWater s)); reflexivity.
Qed.

Lemma set_previous_sameControl raw t s :
  sameControl (set_soilMoistureValue raw (set_previousMillisSense t s)) s.
Proof. unfold sameControl. repeat split; reflexivity. Qed.

(** A call of [loop] without button edge, [intervalSense] after the last
    tick or later: one sampling tick. *)
Lemma loop_due cal inp s :
  quiet inp = true -> senseDue (millis inp) s = true ->
  sameControl (loop cal inp s) (irrigate (moisturePercent cal (analogRead_A0 inp)) s) /\
  previousMillisSense (loop cal inp s) = millis inp.
Proof.
  intros Hq Hdue. unfold loop. rewrite (readButtons_quiet _ _ Hq), Hdue.
  split.
  - eapply sameControl_trans; [apply showDiff_sameControl|].
    unfold sense. apply irrigate_sameControl, set_previous_sameControl.
  - rewrite showDiff_previousMillis. unfold sense.
    rewrite irrigate_previousMillis. reflexivity.
Qed.

(** A call of [loop] without button edge before [intervalSense] has
    elapsed: no tick. *)
Lemma loop_not_due cal inp s :
  quiet inp = true -> senseDue (millis inp) s = false ->
  sameControl (loop cal inp s) s /\
  previousMillisSense (loop cal inp s) = previousMillisSense s.
Proof.
  intros Hq Hdue. unfold loop. rewrite (readButtons_quiet _ _ Hq), Hdue.
  split; [apply showDiff_sameControl | apply showDiff_previousMillis].
Qed.

Lemma irrigateAll_sameControl ps : forall s s',
  sameControl s s' -> sameControl (irrigateAll ps s) (irrigateAll ps s').
Proof.
  induction ps as [|p ps IH]; intros s s' H; [exact H|].
  rewrite !irrigateAll_cons. apply IH. now apply irrigate_sameControl.
Qed.

Lemma everySecond_S raw n :
  everySecond raw (S n) =
  everySecond raw n ++
  [{| button1_isPressed := false; button2_isPressed := false;
      millis := 1000 * Z.of_nat (S n); analogRead_A0 := raw |}].
Proof. unfold everySecond. now rewrite seq_S, map_app. Qed.

Lemma repeat_S_snoc {A} (x : A) n : repeat x (S n) = repeat x n ++ [x].
Proof.
  induction n as [|n IH]; [reflexivity|].
  change (repeat x (S (S n))) with (x :: repeat x (S n)).
  rewrite IH at 1. reflexivity.
Qed.

(** Calls of [loop] one second apart are one sampling tick each. *)
Lemma run_everySecond cal raw n :
  1000 * Z.of_nat n < ULong.modulus ->
  sameControl (run cal (everySecond raw n) setup)
              (irrigateAll (repeat (moisturePercent cal raw) n) setup) /\
  previousMillisSense (run cal (everySecond raw n) setup) = 1000 * Z.of_nat n.
Proof.
  induction n as [|n IH]; intros Hn.
  - split; [unfold sameControl; auto | reflexivity].
  - destruct IH as (IHc & IHp); [lia|].
    rewrite everySecond_S, run_app, repeat_S_snoc, irrigateAll_snoc.
    change (run cal [?i] ?x) with (loop cal i x).
    match goal with |- context [loop cal ?i ?x] =>
      destruct (loop_due cal i x) as (Hc & Hp)
    end.
    + reflexivity.
    + unfold senseDue. rewrite IHp. cbn [millis].
      unfold ULong.sub, ULong.wrap.
      replace (1000 * Z.of_nat (S n) - 1000 * Z.of_nat n) with 1000 by lia.
      reflexivity.
    + split; [|exact Hp].
      eapply sameControl_trans; [exact Hc|].
      cbn [analogRead_A0]. now apply irrigate_sameControl.
Qed.

(** ** The sampling gate *)

Lemma ULong_sub_wrap_add prev d :
  0 <= d < ULong.modulus -> ULong.sub (ULong.wrap (prev + d)) prev = d.
Proof.
  intros H. unfold ULong.sub, ULong.wrap.
  rewrite Zminus_mod_idemp_l.
  replace (prev + d - prev) with d by lia.
  now apply Z.mod_small.
Qed.

(** X1. The gate of line 129 survives the roll-over of [millis()]: when
    [d] milliseconds have passed since the last sampling tick, the 32-bit
    clock having wrapped or not, the tick is let through exactly when
    [d >= intervalSense]. *)
Theorem gate_across_rollover (s : State) (d : Z) :
  0 <= d < ULong.modulus ->
  senseDue (ULong.wrap (previousMillisSense s + d)) s = (intervalSense <=? d).
Proof.
  intros H. unfold senseDue. now rewrite ULong_sub_wrap_add.
Qed.

Lemma gate_across_rollover_witness :
  senseDue 704 (set_previousMillisSense 4294967000 setup) = true /\
  senseDue 703 (set_previousMillisSense 4294967000 setup) = false.
Proof.
  split.
  - apply (gate_across_rollover (set_previousMillisSense 4294967000 setup) 1000).
    unfold ULong.modulus. lia.
  - apply (gate_across_rollover (set_previousMillisSense 4294967000 setup) 999).
    unfold ULong.modulus. lia.
Defined.

Lemma sameControl_refl s : sameControl s s.
Proof. unfold sameControl. auto. Qed.

(** X2. A run of calls of [loop] without button edges does to the
    threshold, the counters and the relay what the sampling ticks of the
    calls let through by line 129 do, in order; the other calls do
    nothing to them. *)
Theorem run_is_its_sampled_ticks (cal : Calibration) (inps : list Input) (s : State) :
  forallb quiet inps = true ->
  sameControl (run cal inps s)
    (irrigateAll (map (readingOf cal) (sampled (previousMillisSense s) inps)) s).
Proof.
  revert s. induction inps as [|inp inps IH]; intros s Hq.
  - apply sameControl_refl.
  - cbn [forallb] in Hq. apply andb_prop in Hq. destruct Hq as [Hq1 Hq2].
    rewrite run_cons. cbn [sampled].
    change (intervalSense <=? ULong.sub (millis inp) (previousMillisSense s))
      with (senseDue (millis inp) s).
    destruct (senseDue (millis inp) s) eqn:Hdue.
    + destruct (loop_due cal inp s Hq1 Hdue) as (Hc & Hp).
      cbn [map]. rewrite irrigateAll_cons.
      eapply sameControl_trans; [apply IH; assumption|].
      rewrite Hp. apply irrigateAll_sameControl. exact Hc.
    + destruct (loop_not_due cal inp s Hq1 Hdue) as (Hc & Hp).
      eapply sameControl_trans; [apply IH; assumption|].
      rewrite Hp. apply irrigateAll_sameControl. exact Hc.
Qed.

Lemma run_is_its_sampled_ticks_witness :
  let at_ t := {| button1_isPressed := false; button2_isPressed := false;
                  millis := t; analogRead_A0 := 620 |} in
  sampled 0 [at_ 400; at_ 1000; at_ 1900; at_ 2000] = [at_ 1000; at_ 2000] /\
  sameControl
    (run calibration [at_ 400; at_ 1000; at_ 1900; at_ 2000] setup)
    (irrigateAll [readingOf calibration (at_ 1000);
                  readingOf calibration (at_ 2000)] setup).
Proof.
  intros at_. split; [reflexivity|].
  apply (run_is_its_sampled_ticks calibration
           [at_ 400; at_ 1000; at_ 1900; at_ 2000] setup).
  reflexivity.
Defined.

(** X3. A call of [loop] that line 129 does not let through reads no
    sensor and writes neither the relay, the counters nor the LCD line:
    only the threshold and [diff] can change, and only the button lines
    are printed. *)
Theorem call_between_ticks (cal : Calibration) (inp : Input) (s : State) :
  senseDue (millis inp) s = false ->
  let s' := loop cal inp s in
  RELAY_PIN s' = RELAY_PIN s /\
  dryTimeSum s' = dryTimeSum s /\ addWaterSum s' = addWaterSum s /\
  timeAddH20 s' = timeAddH20 s /\ lcd_line2 s' = lcd_line2 s /\
  soilMoistureValue s' = soilMoistureValue s /\
  soilMoisturePercent s' = soilMoisturePercent s /\
  previousMillisSense s' = previousMillisSense s /\
  Serial s' = Serial s ++ buttonLines inp.
Proof.
  intros Hdue. unfold loop.
  assert (E : senseDue (millis inp) (readButtons inp s) = false).
  { unfold senseDue, readButtons in *.
    destruct (button1_isPressed inp), (button2_isPressed inp); exact Hdue. }
  rewrite E. clear E. cbv zeta.
  unfold showDiff, readButtons, buttonLines.
  destruct (button1_isPressed inp), (button2_isPressed inp);
    match goal with |- context [if ?b then _ else _] => destruct b end;
    cbn; rewrite <- ?app_assoc, ?app_nil_r; repeat split; reflexivity.
Qed.

Lemma call_between_ticks_witness :
  let inp := {| button1_isPressed := true; button2_isPressed := false;
                millis := 500; analogRead_A0 := 620 |} in
  let s' := loop calibration inp setup in
  RELAY_PIN s' = LOW /\ dryTimeSum s' = 0 /\
  thresholdAddWater s' = F32.of_int 38 /\
  Serial s' = [ButtonIsPressed 1].
Proof.
  intros inp s'.
  destruct (call_between_ticks calibration inp setup eq_refl)
    as (H1 & H2 & _ & _ & _ & _ & _ & _ & H9).
  split; [exact H1 | split; [exact H2 | split; [reflexivity | exact H9]]].
Defined.

(** ** When the pump runs *)

(** X4. The relay is HIGH only while a dose is in progress: in every
    state reachable from [setup], a HIGH relay comes with [dryTime]
    reached and a running, not yet exceeded, dose counter. *)
Theorem pump_on_only_while_dosing (cal : Calibration) (s : State) :
  reachable cal s -> RELAY_PIN s = HIGH ->
  dryTime <= dryTimeSum s /\ 0 < addWaterSum s <= addWater.
Proof.
  intros H Hr. apply reachable_countersOk in H.
  destruct H as [(_ & _ & _ & Hlow)|(Ha & Hm & Hd)].
  - rewrite Hr in Hlow. discriminate.
  - counters_lia.
Qed.

Lemma pump_on_only_while_dosing_witness :
  let s := run calibration (everySecond 620 185) setup in
  dryTime <= dryTimeSum s /\ 0 < addWaterSum s <= addWater.
Proof.
  intros s. apply (pump_on_only_while_dosing calibration s).
  - apply reachable_run, reachable_setup.
  - vm_compute. reflexivity.
Defined.

(** A tick that leaves the relay HIGH has advanced the dose counter. *)
Lemma high_tick_advances p s :
  countersOk s -> RELAY_PIN (irrigate p s) = HIGH ->
  addWaterSum (irrigate p s) = addWaterSum s + intervalSense /\
  addWaterSum (irrigate p s) <= addWater.
Proof.
  intros H Hr.
  destruct (isDry (thresholdAddWater s) p) eqn:Hp.
  - destruct (Z_lt_dec (dryTimeSum s + intervalSense) dryTime) as [Hlt|Hge].
    + destruct H as [(Ha & Hd & Hm & Hlow)|(Ha & Hm & Hd)]; [|counters_lia].
      destruct (irrigate_confirming p s Hp) as (_ & _ & Er); [lia|assumption|].
      rewrite Er, Hlow in Hr. discriminate.
    + destruct (Z_lt_dec (addWaterSum s) addWater) as [Hlta|Hgea].
      * destruct (irrigate_dosing p s Hp) as (_ & Ea & _);
          [ unfold countersOk, waiting, dosing in H; counters_lia
          | unfold countersOk, waiting, dosing in H; counters_lia |].
        rewrite Ea. unfold countersOk, waiting, dosing in H. counters_lia.
      * destruct (irrigate_soak p s Hp) as (_ & _ & Er);
          [ unfold countersOk, waiting, dosing in H; counters_lia | lia |].
        rewrite Er in Hr. discriminate.
  - destruct (irrigate_happy p s Hp) as (_ & _ & Er).
    rewrite Er in Hr. discriminate.
Qed.

Lemma high_run_bounded ps : forall s,
  countersOk s -> highAfterEach ps s = true ->
  addWaterSum s + intervalSense * Z.of_nat (length ps) <= addWater.
Proof.
  induction ps as [|p ps IH]; intros s H Hh.
  - cbn [length Z.of_nat]. unfold countersOk, waiting, dosing in H. counters_lia.
  - cbn [highAfterEach] in Hh. apply andb_prop in Hh. destruct Hh as [Hr Hh].
    destruct (high_tick_advances p s H Hr) as (Ea & _).
    specialize (IH (irrigate p s) (proj1 (irrigate_countersOk p s H)) Hh).
    rewrite Ea in IH. cbn [length]. unfold intervalSense in *. lia.
Qed.

(** X5. The pump never runs through more than 20 sampling ticks in a
    row: from any reachable state, if the relay is HIGH after each tick
    of a run of ticks, whatever the readings, the run has at most
    [addWater / intervalSense = 20] ticks. *)
Theorem pump_on_at_most_20_ticks (cal : Calibration) (s : State) (ps : list float) :
  reachable cal s -> highAfterEach ps s = true -> (length ps <= 20)%nat.
Proof.
  intros H Hh. apply reachable_countersOk in H.
  pose proof (high_run_bounded ps s H Hh) as Hb.
  unfold countersOk, waiting, dosing in H. counters_lia.
Qed.

Lemma pump_on_at_most_20_ticks_witness :
  let s := run calibration (everySecond 620 179) setup in
  highAfterEach (repeat (F32.of_int 30) 20) s = true /\
  highAfterEach (repeat (F32.of_int 30) 21) s = false /\
  (length (repeat (F32.of_int 30) 20) <= 20)%nat.
Proof.
  intros s.
  assert (H : highAfterEach (repeat (F32.of_int 30) 20) s = true)
    by (vm_compute; reflexivity).
  split; [exact H|]. split; [vm_compute; reflexivity|].
  apply (pump_on_at_most_20_ticks calibration s).
  - apply reachable_run, reachable_setup.
  - exact H.
Defined.

(** X6. Dryness is always answered: from any reachable state, 181
    consecutive dry ticks do not pass without the relay being HIGH after
    one of them. *)
Theorem dry_soil_gets_water (cal : Calibration) (s : State) (ps : list float) :
  reachable cal s ->
  allDry (thresholdAddWater s) ps = true -> length ps = 181%nat ->
  exists pre post,
    ps = pre ++ post /\ pre <> [] /\
    RELAY_PIN (irrigateAll pre s) = HIGH.
Proof.
  intros H Hdry Hlen. apply reachable_countersOk in H.
  destruct H as [(Ha & Hd & Hm & Hlow)|(Ha & Hm & Hd)].
  - (* waiting: the rest of the confirmation, then the first dosing tick *)
    set (j := Z.to_nat ((dryTime - dryTimeSum s) / intervalSense - 1)).
    assert (Hj : dryTimeSum s + intervalSense * Z.of_nat j = dryTime - intervalSense
                 /\ (j <= 179)%nat).
    { unfold j. counters_lia. }
    destruct Hj as (Hj & Hj').
    destruct (split_at j ps) as (E & L1 & L2); [lia|].
    destruct (skipn j ps) as [|x rest] eqn:Es; [cbn in L2; lia|].
    exists (firstn j ps ++ [x]), rest. split; [|split].
    + rewrite <- app_assoc. exact E.
    + intros C. apply app_eq_nil in C. destruct C as [_ C]. discriminate.
    + rewrite irrigateAll_snoc.
      assert (Hpre : allDry (thresholdAddWater s) (firstn j ps) = true)
        by now apply allDry_firstn.
      destruct (confirming_run (firstn j ps) s) as (Ed & Ea' & _).
      * lia.
      * rewrite (dryCount_allDry _ _ Hpre), L1, Hj. unfold intervalSense. lia.
      * rewrite (dryCount_allDry _ _ Hpre), L1, Hj in Ed.
        apply irrigate_dosing.
        -- rewrite irrigateAll_threshold.
           pose proof (allDry_skipn _ j _ Hdry) as Hs. rewrite Es in Hs.
           unfold allDry in Hs. cbn [forallb] in Hs.
           apply andb_prop in Hs. tauto.
        -- rewrite Ed. counters_lia.
        -- rewrite Ea', Ha. counters_lia.
  - destruct ps as [|p ps]; [discriminate|].
    unfold allDry in Hdry. cbn [forallb] in Hdry.
    apply andb_prop in Hdry. destruct Hdry as [Hp Hps].
    destruct (Z_lt_dec (addWaterSum s) addWater) as [Hlta|Hgea].
    + (* the dose goes on at once *)
      exists [p], ps. split; [reflexivity|]. split; [discriminate|].
      apply (irrigate_dosing p s Hp); counters_lia.
    + (* the dose is complete: reset, then a whole confirmation *)
      exists (p :: ps), []. split; [now rewrite app_nil_r|].
      split; [discriminate|].
      rewrite irrigateAll_cons.
      apply cycle_dosing.
      * apply (irrigate_soak p s Hp); counters_lia.
      * now rewrite irrigate_threshold.
      * cbn [length] in Hlen. lia.
Qed.

Lemma dry_soil_gets_water_witness :
  let s := run calibration (everySecond 620 200) setup in
  exists pre post,
    repeat (F32.of_int 30) 181 = pre ++ post /\ pre <> [] /\
    RELAY_PIN (irrigateAll pre s) = HIGH.
Proof.
  intros s.
  apply (dry_soil_gets_water calibration s (repeat (F32.of_int 30) 181)).
  - apply reachable_run, reachable_setup.
  - vm_compute. reflexivity.
  - reflexivity.
Defined.

Lemma whole_cycles n : forall ps s,
  coldStart s -> allDry (thresholdAddWater s) ps = true ->
  length ps = (200 * n)%nat ->
  coldStart (irrigateAll ps s).
Proof.
  induction n as [|n IH]; intros ps s Hs Hdry Hlen.
  - destruct ps; [exact Hs | discriminate].
  - destruct (split_at 200 ps) as (E & L1 & L2); [lia|].
    rewrite E, irrigateAll_app. apply IH.
    + apply cycle_soak; auto using allDry_firstn.
    + rewrite irrigateAll_threshold. now apply allDry_skipn.
    + lia.
Qed.

(** X7. Under lasting dryness the sketch cycles with a period of 200
    ticks: from both counters at zero and the pump off, after [n]
    consecutive dry ticks the relay is HIGH exactly when [n mod 200] is
    between 180 and 199, and the dry time stands at [n mod 200] sampling
    intervals. *)
Theorem dry_duty_cycle (s : State) (ps : list float) :
  coldStart s -> allDry (thresholdAddWater s) ps = true ->
  let r := Z.of_nat (length ps) mod 200 in
  RELAY_PIN (irrigateAll ps s) = (180 <=? r) /\
  dryTimeSum (irrigateAll ps s) = intervalSense * r /\
  addWaterSum (irrigateAll ps s) = intervalSense * Z.max 0 (r - 179).
Proof.
  intros Hs Hdry r.
  set (n := (length ps / 200)%nat).
  assert (Hn : (200 * n <= length ps)%nat /\ Z.of_nat (length ps - 200 * n) = r).
  { unfold n, r. pose proof (Nat.div_mod_eq (length ps) 200) as E.
    pose proof (Nat.mod_upper_bound (length ps) 200 ltac:(lia)) as B.
    split; [lia|].
    change 200 with (Z.of_nat 200). rewrite <- Nat2Z.inj_mod. lia. }
  destruct Hn as (Hle & Hr).
  assert (Hr200 : 0 <= r < 200) by (unfold r; apply Z.mod_pos_bound; lia).
  destruct (split_at (200 * n) ps) as (E & L1 & L2); [exact Hle|].
  rewrite E, irrigateAll_app.
  assert (Hc : coldStart (irrigateAll (firstn (200 * n) ps) s))
    by (apply (whole_cycles n); auto using allDry_firstn).
  assert (Hd : allDry (thresholdAddWater (irrigateAll (firstn (200 * n) ps) s))
                 (skipn (200 * n) ps) = true)
    by (rewrite irrigateAll_threshold; now apply allDry_skipn).
  destruct (Z.leb_spec 180 r) as [Hhigh|Hlow].
  - destruct (cycle_dosing _ _ Hc Hd) as (Ed & Ea & Er); [lia|].
    rewrite Ed, Ea, Er, L2, Hr. repeat split; unfold intervalSense; lia.
  - destruct (cycle_confirming _ _ Hc Hd) as (Ed & Ea & Er); [lia|].
    rewrite Ed, Ea, Er, L2, Hr. repeat split; unfold intervalSense; lia.
Qed.

Lemma dry_duty_cycle_witness :
  RELAY_PIN (irrigateAll (repeat (F32.of_int 30) 585) setup) = true /\
  dryTimeSum (irrigateAll (repeat (F32.of_int 30) 585) setup) = 185000 /\
  addWaterSum (irrigateAll (repeat (F32.of_int 30) 585) setup) = 6000.
Proof.
  apply (dry_duty_cycle setup (repeat (F32.of_int 30) 585)).
  - repeat split; reflexivity.
  - apply allDry_repeat. vm_compute. reflexivity.
Defined.

(** X8. A satisfied reading in the middle of a dose only pauses it: the
    tick writes the relay LOW, and the next dry tick, with no new
    confirmation delay, writes it HIGH again and goes on with the dose
    counter where it stood. *)
Theorem interrupted_dose_resumes (cal : Calibration) (s : State) (p q : float) :
  reachable cal s -> 0 < addWaterSum s < addWater ->
  F32.leb (thresholdAddWater s) p = true ->
  isDry (thresholdAddWater s) q = true ->
  RELAY_PIN (irrigate p s) = LOW /\
  RELAY_PIN (irrigate q (irrigate p s)) = HIGH /\
  addWaterSum (irrigate q (irrigate p s)) = addWaterSum s + intervalSense.
Proof.
  intros H Ha Hp Hq. apply reachable_countersOk in H.
  destruct (irrigate_happy p s (geb_not_dry _ _ Hp)) as (Ed & Ea & Er).
  split; [exact Er|].
  destruct (irrigate_dosing q (irrigate p s)) as (_ & Ea' & Er').
  - now rewrite irrigate_threshold.
  - rewrite Ed. unfold countersOk, waiting, dosing in H. counters_lia.
  - rewrite Ea. lia.
  - rewrite Ea', Er', Ea. auto.
Qed.

Lemma interrupted_dose_resumes_witness :
  let s := run calibration (everySecond 620 185) setup in
  RELAY_PIN (irrigate (F32.of_int 40) s) = LOW /\
  RELAY_PIN (irrigate (F32.of_int 30) (irrigate (F32.of_int 40) s)) = HIGH /\
  addWaterSum (irrigate (F32.of_int 30) (irrigate (F32.of_int 40) s))
  = addWaterSum s + intervalSense.
Proof.
  intros s.
  apply (interrupted_dose_resumes calibration s (F32.of_int 40) (F32.of_int 30)).
  - apply reachable_run, reachable_setup.
  - vm_compute. split; reflexivity.
  - vm_compute. reflexivity.
  - vm_compute. reflexivity.
Defined.

(** ** The threshold at the edge of the whole numbers *)

Lemma add_one_saturates n :
  - wholeLimit <= n <= wholeLimit ->
  F32.add (F32.of_int n) (F32.of_int 1) = F32.of_int (Z.min (n + 1) wholeLimit).
Proof.
  unfold wholeLimit. intros H.
  destruct (Z.eq_dec n 16777216) as [->|N1]; [vm_compute; reflexivity|].
  destruct (Z.eq_dec n 16777215) as [->|N2]; [vm_compute; reflexivity|].
  destruct (Z.eq_dec n (-16777216)) as [->|N3]; [vm_compute; reflexivity|].
  rewrite F32Facts.add_of_int by (rewrite two_pow_prec; lia).
  f_equal. lia.
Qed.

Lemma sub_one_saturates n :
  - wholeLimit <= n <= wholeLimit ->
  F32.sub (F32.of_int n) (F32.of_int 1) = F32.of_int (Z.max (n - 1) (- wholeLimit)).
Proof.
  unfold wholeLimit. intros H.
  destruct (Z.eq_dec n (-16777216)) as [->|N1]; [vm_compute; reflexivity|].
  destruct (Z.eq_dec n (-16777215)) as [->|N2]; [vm_compute; reflexivity|].
  destruct (Z.eq_dec n 16777216) as [->|N3]; [vm_compute; reflexivity|].
  rewrite F32Facts.sub_of_int by (rewrite two_pow_prec; lia).
  f_equal. lia.
Qed.

Lemma loop_pressed cal inp s n :
  thresholdAddWater s = F32.of_int n -> - wholeLimit <= n <= wholeLimit ->
  thresholdAddWater (loop cal inp s) = F32.of_int (pressed n inp) /\
  - wholeLimit <= pressed n inp <= wholeLimit.
Proof.
  intros Ht Hn. rewrite loop_threshold, readButtons_threshold, Ht.
  unfold pressed.
  destruct (button1_isPressed inp), (button2_isPressed inp); cbv zeta.
  - rewrite add_one_saturates, sub_one_saturates by (unfold wholeLimit in *; lia).
    split; [reflexivity | unfold wholeLimit in *; lia].
  - rewrite add_one_saturates by assumption.
    split; [reflexivity | unfold wholeLimit in *; lia].
  - rewrite sub_one_saturates by assumption.
    split; [reflexivity | unfold wholeLimit in *; lia].
  - split; [reflexivity | assumption].
Qed.

(** X9. The threshold is always a whole number between -16777216 and
    16777216, never a NaN or an infinity: a press edge of button 1 takes
    it from [n] to [min (n + 1) 16777216], a press edge of button 2 to
    [max (n - 1) (-16777216)], button 1 first when both are pressed in the
    same call; at the two ends [float] rounding holds it in place. *)
Theorem threshold_stays_whole (cal : Calibration) (s : State) :
  reachable cal s ->
  exists n,
    - wholeLimit <= n <= wholeLimit /\
    thresholdAddWater s = F32.of_int n /\
    forall inp, thresholdAddWater (loop cal inp s) = F32.of_int (pressed n inp).
Proof.
  intros H.
  assert (E : exists n, - wholeLimit <= n <= wholeLimit /\
                        thresholdAddWater s = F32.of_int n).
  { induction H as [|inp s _ (n & Hn & Ht)].
    - exists 37. split; [unfold wholeLimit; lia | reflexivity].
    - exists (pressed n inp).
      destruct (loop_pressed cal inp s n Ht Hn) as (E1 & E2). auto. }
  destruct E as (n & Hn & Ht). exists n. split; [exact Hn|].
  split; [exact Ht|].
  intros inp. now destruct (loop_pressed cal inp s n Ht Hn).
Qed.

Lemma threshold_stays_whole_witness :
  exists n,
    - wholeLimit <= n <= wholeLimit /\
    thresholdAddWater setup = F32.of_int n /\
    forall inp, thresholdAddWater (loop calibration inp setup) = F32.of_int (pressed n inp).
Proof.
  apply (threshold_stays_whole calibration setup). apply reachable_setup.
Defined.

(** ** Readings inside and outside the calibrated range *)

Lemma leb_ltb_trans (x y z : float) :
  F32.leb x y = true -> F32.ltb y z = true -> F32.ltb x z = true.
Proof.
  unfold F32.leb, F32.ltb, SFleb, SFltb.
  destruct x as [sx|sx| |sx mx ex], y as [sy|sy| |sy my ey],
    z as [sz|sz| |sz mz ez]; cbn;
    try discriminate; try reflexivity;
    try (destruct sx; try discriminate; try reflexivity);
    try (destruct sy; try discriminate; try reflexivity);
    try (destruct sz; try discriminate; try reflexivity);
    try (intros; reflexivity); compare_cases.
Qed.

Lemma ltb_leb_trans (x y z : float) :
  F32.ltb x y = true -> F32.leb y z = true -> F32.ltb x z = true.
Proof.
  unfold F32.leb, F32.ltb, SFleb, SFltb.
  destruct x as [sx|sx| |sx mx ex], y as [sy|sy| |sy my ey],
    z as [sz|sz| |sz mz ez]; cbn;
    try discriminate; try reflexivity;
    try (destruct sx; try discriminate; try reflexivity);
    try (destruct sy; try discriminate; try reflexivity);
    try (destruct sz; try discriminate; try reflexivity);
    try (intros; reflexivity); compare_cases.
Qed.

Lemma moisturePercent_mono r1 r2 :
  INT_MIN <= r1 -> r1 <= r2 -> r2 <= INT_MAX ->
  F32.leb (moisturePercent calibration r2) (moisturePercent calibration r1) = true.
Proof.
  intros H1 H12 H2.
  apply (nonIncreasing_range _ (Z.to_nat (INT_MAX - INT_MIN)) INT_MIN).
  - unfold INT_MAX, INT_MIN. lia.
  - exact moisturePercent_steps.
  - assumption.
  - assumption.
  - unfold INT_MAX, INT_MIN in *. lia.
Qed.

(** X10. The conversion does not clamp: over the range of [int], a raw
    value between [WaterValue = 35] and [AirValue = 620] gives a
    percentage between 0 and 100, a raw value above 620 a negative
    percentage, and a raw value below 35 a percentage above 100. *)
Theorem percent_in_and_out_of_calibration (raw : Z) :
  INT_MIN <= raw <= INT_MAX ->
  let p := moisturePercent calibration raw in
  (35 <= raw <= 620 ->
   F32.leb (F32.of_int 0) p = true /\ F32.leb p (F32.of_int 100) = true) /\
  (620 < raw -> F32.ltb p (F32.of_int 0) = true) /\
  (raw < 35 -> F32.ltb (F32.of_int 100) p = true).
Proof.
  intros Hr p. unfold INT_MIN, INT_MAX in Hr. split; [|split].
  - intros H. split.
    + change (F32.of_int 0) with (moisturePercent calibration 620).
      apply moisturePercent_mono; unfold INT_MIN, INT_MAX; lia.
    + change (F32.of_int 100) with (moisturePercent calibration 35).
      apply moisturePercent_mono; unfold INT_MIN, INT_MAX; lia.
  - intros H. apply (leb_ltb_trans _ (moisturePercent calibration 621)).
    + apply moisturePercent_mono; unfold INT_MIN, INT_MAX; lia.
    + vm_compute. reflexivity.
  - intros H. apply (ltb_leb_trans _ (moisturePercent calibration 34)).
    + vm_compute. reflexivity.
    + apply moisturePercent_mono; unfold INT_MIN, INT_MAX; lia.
Qed.

Lemma percent_in_and_out_of_calibration_witness :
  (F32.leb (F32.of_int 0) (moisturePercent calibration 445) = true /\
   F32.leb (moisturePercent calibration 445) (F32.of_int 100) = true) /\
  F32.ltb (moisturePercent calibration 1023) (F32.of_int 0) = true /\
  F32.ltb (F32.of_int 100) (moisturePercent calibration 0) = true.
Proof.
  split; [|split].
  - apply (percent_in_and_out_of_calibration 445); unfold INT_MIN, INT_MAX; lia.
  - apply (percent_in_and_out_of_calibration 1023); unfold INT_MIN, INT_MAX; lia.
  - apply (percent_in_and_out_of_calibration 0); unfold INT_MIN, INT_MAX; lia.
Defined.

(** ** The bottom line of the LCD *)

Lemma irrigate_happy_lcd p s :
  isDry (thresholdAddWater s) p = false ->
  lcd_line2 (irrigate p s) = "Lea is Happy    "%string.
Proof.
  intros H. unfold irrigate, isDry in *. cbv zeta. fields.
  rewrite H. fields. reflexivity.
Qed.

Lemma irrigate_confirming_lcd p s :
  isDry (thresholdAddWater s) p = true ->
  0 <= dryTimeSum s -> dryTimeSum s + intervalSense < dryTime ->
  timeAddH20 (irrigate p s) = dryTime - (dryTimeSum s + intervalSense) /\
  lcd_line2 (irrigate p s) =
  ("H20 add in "
     ++ ULong.to_String ((dryTime - (dryTimeSum s + intervalSense)) / 1000)
     ++ "s   ")%string.
Proof.
  intros H H0 H1.
  assert (E : ULong.add (dryTimeSum s) intervalSense = dryTimeSum s + intervalSense).
  { apply ULong_add_small. unfold ULong.modulus, dryTime, intervalSense in *. lia. }
  assert (E' : ULong.sub dryTime (dryTimeSum s + intervalSense)
               = dryTime - (dryTimeSum s + intervalSense)).
  { unfold ULong.sub, ULong.wrap. apply Z.mod_small.
    unfold ULong.modulus, dryTime, intervalSense in *. lia. }
  unfold irrigate, isDry in *. cbv zeta. fields. rewrite H, E.
  destruct (Z.leb_spec dryTime (dryTimeSum s + intervalSense)) as [C|C]; [lia|].
  fields. rewrite E'. split; reflexivity.
Qed.

Lemma irrigate_dosing_lcd p s :
  isDry (thresholdAddWater s) p = true ->
  dryTime <= dryTimeSum s + intervalSense < ULong.modulus ->
  0 <= addWaterSum s < addWater ->
  lcd_line2 (irrigate p s) = "Add H20 for 20s   "%string.
Proof.
  intros H H0 H1.
  assert (E : ULong.add (dryTimeSum s) intervalSense = dryTimeSum s + intervalSense).
  { apply ULong_add_small. unfold dryTime, intervalSense in *. lia. }
  unfold irrigate, isDry in *. cbv zeta. fields. rewrite H, E.
  destruct (Z.leb_spec dryTime (dryTimeSum s + intervalSense)) as [C|C]; [|lia].
  destruct (Z.ltb_spec (addWaterSum s) addWater) as [C'|C']; [|lia].
  fields. reflexivity.
Qed.

(** The tick that ends the dose leaves the line as it was (line 157 is
    commented out). *)
Lemma irrigate_soak_lcd p s :
  isDry (thresholdAddWater s) p = true ->
  dryTime <= dryTimeSum s + intervalSense < ULong.modulus ->
  addWater <= addWaterSum s ->
  lcd_line2 (irrigate p s) = lcd_line2 s.
Proof.
  intros H H0 H1.
  assert (E : ULong.add (dryTimeSum s) intervalSense = dryTimeSum s + intervalSense).
  { apply ULong_add_small. unfold dryTime, intervalSense in *. lia. }
  unfold irrigate, isDry in *. cbv zeta. fields. rewrite H, E.
  destruct (Z.leb_spec dryTime (dryTimeSum s + intervalSense)) as [C|C]; [|lia].
  destruct (Z.ltb_spec (addWaterSum s) addWater) as [C'|C']; [lia|].
  fields. reflexivity.
Qed.

(** A list of [n >= 1] elements ends in one. *)
Lemma split_last (ps : list float) :
  ps <> [] ->
  exists pre x, ps = pre ++ [x] /\ length ps = S (length pre).
Proof.
  intros H. destruct (exists_last H) as (pre & x & E).
  exists pre, x. split; [exact E|].
  rewrite E, length_app. cbn. lia.
Qed.

Lemma lcd_while_dosing ps s :
  coldStart s -> allDry (thresholdAddWater s) ps = true ->
  (180 <= length ps <= 199)%nat ->
  lcd_line2 (irrigateAll ps s) = "Add H20 for 20s   "%string.
Proof.
  intros Hs Hdry Hlen.
  destruct (split_last ps) as (pre & x & E & L); [intros C; rewrite C in Hlen; cbn in Hlen; lia|].
  subst ps. rewrite allDry_app in Hdry.
  apply andb_prop in Hdry. destruct Hdry as [Hpre Hx].
  unfold allDry in Hx. cbn [forallb] in Hx. rewrite andb_true_r in Hx.
  rewrite irrigateAll_snoc.
  destruct (Nat.eq_dec (length pre) 179) as [E179|N179].
  - destruct (cycle_confirming pre s Hs Hpre) as (Ed & Ea & _); [lia|].
    apply irrigate_dosing_lcd.
    + now rewrite irrigateAll_threshold.
    + rewrite Ed, E179. counters_lia.
    + rewrite Ea. counters_lia.
  - destruct (cycle_dosing pre s Hs Hpre) as (Ed & Ea & _); [lia|].
    apply irrigate_dosing_lcd.
    + now rewrite irrigateAll_threshold.
    + rewrite Ed. counters_lia.
    + rewrite Ea. counters_lia.
Qed.

(** X11. What the bottom LCD line shows through a dry cycle, from both
    counters at zero and the pump off: after [n] consecutive dry ticks,
    for [n] from 1 to 179, the seconds left until the dose,
    ["H20 add in (180 - n)s"]; from 180 to 199, ["Add H20 for 20s"]; and
    still ["Add H20 for 20s"] after tick 200, which has switched the pump
    off. *)
Theorem lcd_through_dry_cycle (s : State) (ps : list float) :
  coldStart s -> allDry (thresholdAddWater s) ps = true ->
  let n := Z.of_nat (length ps) in
  (1 <= n <= 179 ->
   lcd_line2 (irrigateAll ps s) =
   ("H20 add in " ++ ULong.to_String (180 - n) ++ "s   ")%string) /\
  (180 <= n <= 199 ->
   lcd_line2 (irrigateAll ps s) = "Add H20 for 20s   "%string) /\
  (n = 200 ->
   lcd_line2 (irrigateAll ps s) = "Add H20 for 20s   "%string /\
   RELAY_PIN (irrigateAll ps s) = LOW).
Proof.
  intros Hs Hdry n. split; [|split].
  - intros Hn.
    destruct (split_last ps) as (pre & x & E & L);
      [intros C; subst ps; cbn in n; lia|].
    unfold n in *. clear n. subst ps. rewrite allDry_app in Hdry.
    apply andb_prop in Hdry. destruct Hdry as [Hpre Hx].
    unfold allDry in Hx. cbn [forallb] in Hx. rewrite andb_true_r in Hx.
    rewrite irrigateAll_snoc.
    destruct (cycle_confirming pre s Hs Hpre) as (Ed & _ & _); [lia|].
    destruct (irrigate_confirming_lcd x (irrigateAll pre s)) as (_ & El).
    + now rewrite irrigateAll_threshold.
    + rewrite Ed. counters_lia.
    + rewrite Ed. counters_lia.
    + rewrite El, Ed, L. do 3 f_equal. counters_lia.
  - intros Hn. apply lcd_while_dosing; auto. lia.
  - intros Hn.
    destruct (split_last ps) as (pre & x & E & L);
      [intros C; subst ps; cbn in n; lia|].
    unfold n in *. clear n. subst ps.
    pose proof Hdry as Hall. rewrite allDry_app in Hdry.
    apply andb_prop in Hdry. destruct Hdry as [Hpre Hx].
    unfold allDry in Hx. cbn [forallb] in Hx. rewrite andb_true_r in Hx.
    split.
    + rewrite irrigateAll_snoc.
      destruct (cycle_dosing pre s Hs Hpre) as (Ed & Ea & _); [lia|].
      rewrite irrigate_soak_lcd.
      * apply lcd_while_dosing; auto. lia.
      * now rewrite irrigateAll_threshold.
      * rewrite Ed. counters_lia.
      * rewrite Ea. counters_lia.
    + apply (cycle_soak (pre ++ [x]) s Hs Hall). lia.
Qed.

Lemma lcd_through_dry_cycle_witness :
  lcd_line2 (irrigateAll (repeat (F32.of_int 30) 60) setup) = "H20 add in 120s   "%string /\
  lcd_line2 (irrigateAll (repeat (F32.of_int 30) 190) setup) = "Add H20 for 20s   "%string /\
  lcd_line2 (irrigateAll (repeat (F32.of_int 30) 200) setup) = "Add H20 for 20s   "%string /\
  RELAY_PIN (irrigateAll (repeat (F32.of_int 30) 200) setup) = LOW.
Proof.
  assert (Hs : coldStart setup) by (repeat split; reflexivity).
  assert (Hd : forall k, allDry (thresholdAddWater setup) (repeat (F32.of_int 30) k) = true)
    by (intros k; apply allDry_repeat; vm_compute; reflexivity).
  destruct (lcd_through_dry_cycle setup _ Hs (Hd 60%nat)) as (H1 & _ & _).
  destruct (lcd_through_dry_cycle setup _ Hs (Hd 190%nat)) as (_ & H2 & _).
  destruct (lcd_through_dry_cycle setup _ Hs (Hd 200%nat)) as (_ & _ & H3).
  split; [apply H1; vm_compute; split; discriminate|].
  split; [apply H2; vm_compute; split; discriminate|].
  apply H3. reflexivity.
Defined.

Lemma string_length_append (a b : string) :
  String.length (a ++ b) = (String.length a + String.length b)%nat.
Proof. induction a as [|c a IH]; cbn; [reflexivity | now rewrite IH]. Qed.

Lemma to_String_digits N :
  1 <= N <= 179 -> (1 <= String.length (ULong.to_String N) <= 3)%nat.
Proof.
  intros H.
  assert (C : forallb (fun k => let l := String.length (ULong.to_String (Z.of_nat k)) in
                               (1 <=? l)%nat && (l <=? 3)%nat) (seq 1 179) = true)
    by (vm_compute; reflexivity).
  rewrite forallb_forall in C.
  specialize (C (Z.to_nat N)). rewrite Z2Nat.id in C by lia.
  assert (I : In (Z.to_nat N) (seq 1 179)) by (apply in_seq; lia).
  apply C in I. cbv zeta in I. apply andb_prop in I. destruct I as [I1 I2].
  apply Nat.leb_le in I1. apply Nat.leb_le in I2. lia.
Qed.

Lemma lcdShape_ext s s' :
  lcd_line2 s' = lcd_line2 s -> lcdShape s -> lcdShape s'.
Proof. unfold lcdShape. intros ->. auto. Qed.

Lemma irrigate_lcdShape p s :
  countersOk s -> lcdShape s -> lcdShape (irrigate p s).
Proof.
  intros H Hl.
  destruct (isDry (thresholdAddWater s) p) eqn:Hp.
  - destruct (Z_lt_dec (dryTimeSum s + intervalSense) dryTime) as [Hlt|Hge].
    + destruct H as [(Ha & Hd & Hm & Hlow)|(Ha & Hm & Hd)]; [|counters_lia].
      destruct (irrigate_confirming_lcd p s Hp) as (_ & El); [lia|assumption|].
      right. right. right.
      exists ((dryTime - (dryTimeSum s + intervalSense)) / 1000).
      split; [counters_lia | exact El].
    + destruct (Z_lt_dec (addWaterSum s) addWater) as [Hlta|Hgea].
      * right. right. left. apply (irrigate_dosing_lcd p s Hp);
          unfold countersOk, waiting, dosing in H; counters_lia.
      * apply (lcdShape_ext s); [|exact Hl].
        apply (irrigate_soak_lcd p s Hp);
          unfold countersOk, waiting, dosing in H; counters_lia.
  - right. left. now apply irrigate_happy_lcd.
Qed.

Lemma readButtons_lcd inp s : lcd_line2 (readButtons inp s) = lcd_line2 s.
Proof.
  unfold readButtons.
  destruct (button1_isPressed inp), (button2_isPressed inp); reflexivity.
Qed.

Lemma showDiff_lcd s : lcd_line2 (showDiff s) = lcd_line2 s.
Proof.
  unfold showDiff.
  destruct (F32.ltb (soilMoisturePercent s) (thresholdAddWater s)); reflexivity.
Qed.

Lemma loop_lcdShape cal inp s :
  countersOk s -> lcdShape s -> lcdShape (loop cal inp s).
Proof.
  intros H Hl. unfold loop. apply (lcdShape_ext _ _ (showDiff_lcd _)).
  destruct (readButtons_counters inp s) as (Bd & Ba & Br).
  destruct (senseDue (millis inp) (readButtons inp s)).
  - unfold sense. apply irrigate_lcdShape.
    + apply (countersOk_ext s); [exact Bd | exact Ba | exact Br | exact H].
    + apply (lcdShape_ext s); [apply readButtons_lcd | exact Hl].
  - apply (lcdShape_ext s); [apply readButtons_lcd | exact Hl].
Qed.

(** X12. The bottom LCD line is always one of four texts: the start-up
    text, ["Lea is Happy"], ["Add H20 for 20s"], or ["H20 add in Ns"]
    with [N] between 1 and 179, so the count-down never shows 0 and the
    unsigned subtraction of line 161 never wraps; and it is always at
    least 16 characters long, the width of the display. *)
Theorem lcd_line2_texts (cal : Calibration) (s : State) :
  reachable cal s ->
  lcdShape s /\ (16 <= String.length (lcd_line2 s) <= 21)%nat.
Proof.
  intros H.
  assert (Hl : lcdShape s).
  { induction H as [|inp s Hs IH].
    - left. reflexivity.
    - apply loop_lcdShape; [now apply (reachable_countersOk cal) | exact IH]. }
  split; [exact Hl|].
  destruct Hl as [E|[E|[E|(N & HN & E)]]]; rewrite E; try (cbn; lia).
  rewrite !string_length_append.
  pose proof (to_String_digits N HN) as D. cbn [String.length]. lia.
Qed.

Lemma lcd_line2_texts_witness :
  let s := run calibration (everySecond 620 100) setup in
  lcdShape s /\ (16 <= String.length (lcd_line2 s) <= 21)%nat.
Proof.
  intros s. apply (lcd_line2_texts calibration s).
  apply reachable_run, reachable_setup.
Defined.

(** ** The lines printed by a tick *)

(** X13. Every sampling tick extends the serial log, never rewrites it:
    it prints the measured percentage first, then one or two lines on
    the branch taken, and last the two counters as the tick leaves them
    (after the resetting tick: zero, although the line before reports
    the dry time reached). *)
Theorem tick_log (p : float) (s : State) :
  exists mid,
    Serial (irrigate p s) =
    Serial s ++ MeasuredMoistureLevel p :: mid ++
      [DryTimeSumLine (dryTimeSum (irrigate p s));
       AddWaterSumLine (addWaterSum (irrigate p s))] /\
    (1 <= length mid <= 2)%nat /\
    (isDry (thresholdAddWater s) p = false -> mid = [PrincessLeaIsHappy]) /\
    (isDry (thresholdAddWater s) p = true ->
     hd PrincessLeaIsHappy mid =
     ItsDryNowFor (ULong.add (dryTimeSum s) intervalSense)).
Proof.
  unfold irrigate, isDry. cbv zeta. fields.
  destruct (F32.ltb p (thresholdAddWater s)).
  - destruct (dryTime <=? ULong.add (dryTimeSum s) intervalSense).
    + destruct (addWaterSum s <? addWater); fields.
      * exists [ItsDryNowFor (ULong.add (dryTimeSum s) intervalSense);
                GoingToAddH2O intervalSense (ULong.add (addWaterSum s) intervalSense)].
        rewrite <- !app_assoc. cbn [app length hd].
        split; [reflexivity|]. split; [lia|]. split; [discriminate | reflexivity].
      * exists [ItsDryNowFor (ULong.add (dryTimeSum s) intervalSense)].
        rewrite <- !app_assoc. cbn [app length hd].
        split; [reflexivity|]. split; [lia|]. split; [discriminate | reflexivity].
    + fields.
      exists [ItsDryNowFor (ULong.add (dryTimeSum s) intervalSense)].
      rewrite <- !app_assoc. cbn [app length hd].
      split; [reflexivity|]. split; [lia|]. split; [discriminate | reflexivity].
  - fields. exists [PrincessLeaIsHappy].
    rewrite <- !app_assoc. cbn [app length hd].
    split; [reflexivity|]. split; [lia|]. split; [reflexivity | discriminate].
Qed.

(** ** Dry readings add up *)

(** X14. The dry time counts dry readings, not consecutive ones: while
    it stays short of [dryTime], a run of ticks with any readings leaves
    it advanced by one sampling interval per dry reading, satisfied
    readings in between taking nothing away, with the dose counter
    untouched and the pump off. *)
Theorem dry_readings_add_up (cal : Calibration) (s : State) (ps : list float) :
  reachable cal s -> addWaterSum s = 0 ->
  dryTimeSum s + intervalSense * Z.of_nat (dryCount (thresholdAddWater s) ps) < dryTime ->
  dryTimeSum (irrigateAll ps s) =
    dryTimeSum s + intervalSense * Z.of_nat (dryCount (thresholdAddWater s) ps) /\
  addWaterSum (irrigateAll ps s) = 0 /\
  RELAY_PIN (irrigateAll ps s) = LOW.
Proof.
  intros H Ha Hd. apply reachable_countersOk in H.
  destruct H as [(_ & Hd0 & _ & Hlow)|(Ha' & _ & _)]; [|lia].
  destruct (confirming_run ps s) as (Ed & Ea & Er); [lia | exact Hd |].
  rewrite Ed, Ea, Ha. auto.
Qed.

Lemma dry_readings_add_up_witness :
  let ps := [F32.of_int 30; F32.of_int 40; F32.of_int 30; F32.of_int 99;
             F32.of_int 36] in
  dryTimeSum (irrigateAll ps setup) = 3000 /\
  addWaterSum (irrigateAll ps setup) = 0 /\
  RELAY_PIN (irrigateAll ps setup) = LOW.
Proof.
  intros ps.
  apply (dry_readings_add_up calibration setup ps).
  - apply reachable_setup.
  - reflexivity.
  - vm_compute. reflexivity.
Defined.

(** ** The conversion never leaves the numbers *)

Lemma between_finite (a p b : float) :
  F32.is_finite a = true -> F32.is_finite b = true ->
  F32.leb a p = true -> F32.leb p b = true ->
  F32.is_finite p = true.
Proof.
  unfold F32.leb, SFleb.
  destruct a as [?|?| |[|] ? ?], p as [?|[|]| |? ? ?],
    b as [?|?| |[|] ? ?]; cbn; congruence.
Qed.

(** X15. With the calibration of the sketch the conversion yields a
    finite number, never a NaN or an infinity, for every raw value of
    the range of [int]; so a reading is below the threshold exactly when
    it is not at or above it. *)
Theorem percent_is_a_number (raw : Z) (thr : float) :
  INT_MIN <= raw <= INT_MAX ->
  let p := moisturePercent calibration raw in
  F32.is_finite p = true /\
  (F32.is_finite thr = true -> isDry thr p = negb (F32.leb thr p)).
Proof.
  intros Hr p.
  assert (Hp : F32.is_finite p = true).
  { apply (between_finite (moisturePercent calibration INT_MAX) p
                          (moisturePercent calibration INT_MIN)).
    - vm_compute. reflexivity.
    - vm_compute. reflexivity.
    - apply moisturePercent_mono; unfold INT_MIN, INT_MAX in *; lia.
    - apply moisturePercent_mono; unfold INT_MIN, INT_MAX in *; lia. }
  split; [exact Hp|].
  intros Ht. unfold isDry, F32.ltb, F32.leb, SFltb, SFleb.
  rewrite (SFcompare_antisym thr p).
  destruct thr as [?|?| |? ? ?]; try discriminate;
    destruct p as [?|?| |? ? ?]; try discriminate;
    destruct (SFcompare _ _) as [[| |]|] eqn:C; cbn; try reflexivity;
    cbn in C; repeat match type of C with
    | context [if ?b then _ else _] => destruct b
    end; discriminate.
Qed.

Lemma percent_is_a_number_witness :
  F32.is_finite (moisturePercent calibration 1023) = true /\
  isDry (F32.of_int 37) (moisturePercent calibration 1023)
  = negb (F32.leb (F32.of_int 37) (moisturePercent calibration 1023)).
Proof.
  destruct (percent_is_a_number 1023 (F32.of_int 37)) as (H1 & H2).
  - unfold INT_MIN, INT_MAX. lia.
  - split; [exact H1 | apply H2; reflexivity].
Defined.
